(** * Boost.KernelAlloc: the allocation/provider interface and the STL allocator

    A shallow embedding of [include/boost/kernelalloc/kernelalloc.hpp].

    The header declares two abstract classes ([allocation], [provider]) whose
    pure virtual members are implemented by concrete providers that live
    outside the header, and one class template ([allocator<T>]) written
    entirely against those virtual members.  The virtual members are taken
    here as the fields of an interface class ([Kernel]); every non-virtual
    member of the header is a definition over that interface which threads
    the state of the provider's objects and a log of the virtual calls made.
*)

From Stdlib Require Import ZArith List String Lia Bool.
From stdpp Require Import base option gmap.
Import ListNotations.
Local Open Scope Z_scope.

(* ===================================================================== *)
(** ** Machine integers and plain data *)

(** [size_t]: an unsigned integer of [size_bits] bits.  The header takes its
    width from the platform ([config.hpp] pulls in <cstddef>), so it is a
    parameter of the development. *)
Class Platform := { size_bits : positive }.

Definition size_type := Z.
Definition pointer := Z.          (* [void *] and [T *]; [nullptr] is 0 *)
Definition nullptr : pointer := 0.

(** [std::error_code]: its numeric value; the contextual conversion to
    [bool] is [value() != 0], and a default constructed code has value 0. *)
Definition error_code := Z.
Definition no_error : error_code := 0.
Definition ec_set (e : error_code) : bool := negb (e =? 0).

Section SizeType.
Context `{Platform}.

Definition SIZE_MAX : Z := 2 ^ Z.pos size_bits - 1.

(** Conversion of a mathematical integer to [size_type]
    (unsigned arithmetic is modulo 2^w). *)
Definition wrap (x : Z) : size_type := x mod 2 ^ Z.pos size_bits.

Definition is_size_t (x : Z) : Prop := 0 <= x <= SIZE_MAX.
End SizeType.

(** Identities of the objects behind [std::shared_ptr<provider>] and
    [std::shared_ptr<allocation>]; an empty pointer is [None]. *)
Definition provider_id := positive.
Definition allocation_id := positive.
Definition provider_ptr := option provider_id.
Definition allocation_ptr := option allocation_id.

(** [operator==] and [operator!=] of [std::shared_ptr]: they compare the
    stored pointers. *)
Definition shared_ptr_eqb (x y : option positive) : bool :=
  match x, y with
  | Some a, Some b => Pos.eqb a b
  | None, None => true
  | _, _ => false
  end.

Definition shared_ptr_neb (x y : option positive) : bool :=
  negb (shared_ptr_eqb x y).

(** [allocation::map_t].  The fields are [addr], [offset], [length], [ec]. *)
Record map_t := mk_map_t {
  m_addr : pointer;
  m_offset : size_type;
  m_length : size_type;
  m_ec : error_code
}.

(** [map_t()] *)
Definition map_t_default : map_t := mk_map_t nullptr 0 0 no_error.
(** [map_t(_offset, _length)] *)
Definition map_t_range (_offset _length : size_type) : map_t :=
  mk_map_t nullptr _offset _length no_error.

(** The exceptions the header throws. *)
Inductive exception :=
| invalid_argument (what : string)
| bad_alloc
| system_error (ec : error_code) (what : option string).

Inductive outcome (A : Type) :=
| Returns (a : A)
| Throws (e : exception).
Arguments Returns {A} a.
Arguments Throws {A} e.

(** An element type [T] matters to the allocator through [sizeof(T)] only. *)
Record elem_type := mk_elem_type { sizeof : Z }.

(** [sizeof] of a complete object type is at least 1 and is a [size_t]. *)
Definition complete_type `{Platform} (T : elem_type) : Prop :=
  0 < sizeof T <= SIZE_MAX.

(* ===================================================================== *)
(** ** The virtual interface *)

(** The four batched operations of [allocation]. *)
Inductive batch_op := op_map | op_unmap | op_prefault | op_discard.

(** One entry per call of a pure virtual member, with its arguments. *)
Inductive event :=
| ev_provider_allocate (p : provider_id) (bytes : size_type)
| ev_provider_allocation (p : provider_id) (addr : pointer) (m : map_t)
| ev_batch (op : batch_op) (a : allocation_id) (ms : list map_t).

(** The pure virtual members.  [World] is the state of all provider and
    allocation objects.  A member that writes through a pointer or reference
    argument returns the new contents next to its result:
    - [provider::allocate(ec, bytes)] returns the new [ec] and the pointer;
    - [provider::allocation(addr, map)] returns the pointer and the new [*map]
      (the allocator always passes a descriptor, never the default [nullptr]);
    - [allocation::map(m, no)] and its three siblings take the array
      [m[0..no)] as a list and return its new contents and the count;
    - [allocation::size()] is [const]: it reads the state. *)
Class Kernel (World : Type) := {
  provider_allocate :
    provider_id -> error_code -> size_type -> World ->
    (error_code * allocation_ptr) * World;
  provider_allocation :
    provider_id -> pointer -> map_t -> World ->
    (allocation_ptr * map_t) * World;
  allocation_size : allocation_id -> World -> size_type;
  allocation_map :
    allocation_id -> list map_t -> World -> (list map_t * size_type) * World;
  allocation_unmap :
    allocation_id -> list map_t -> World -> (list map_t * size_type) * World;
  allocation_prefault :
    allocation_id -> list map_t -> World -> (list map_t * size_type) * World;
  allocation_discard :
    allocation_id -> list map_t -> World -> (list map_t * size_type) * World
}.

(** The state a member function runs in: the objects and the call log. *)
Record machine (World : Type) := mk_machine {
  world : World;
  trace : list event
}.
Arguments mk_machine {World} _ _.
Arguments world {World} _.
Arguments trace {World} _.

(* ===================================================================== *)
(** ** Two layers of effects

    The allocation/provider layer is [noexcept]: a computation there maps a
    state to a value and a state.  The allocator layer throws: a computation
    there maps a state to an outcome and a state. *)

Definition NoThrow (S A : Type) : Type := S -> A * S.
Definition Throwing (S A : Type) : Type := S -> outcome A * S.

Definition nt_ret {S A} (a : A) : NoThrow S A := fun s => (a, s).
Definition nt_bind {S A B} (c : NoThrow S A) (k : A -> NoThrow S B)
  : NoThrow S B :=
  fun s => let (a, s') := c s in k a s'.

Definition th_ret {S A} (a : A) : Throwing S A := fun s => (Returns a, s).
Definition throw {S A} (e : exception) : Throwing S A := fun s => (Throws e, s).
Definition th_bind {S A B} (c : Throwing S A) (k : A -> Throwing S B)
  : Throwing S B :=
  fun s =>
    match c s with
    | (Returns a, s') => k a s'
    | (Throws e, s') => (Throws e, s')
    end.

Declare Scope nothrow_scope.
Delimit Scope nothrow_scope with nothrow.
Declare Scope throwing_scope.
Delimit Scope throwing_scope with throwing.

Notation "x <~ c ;; k" := (nt_bind c (fun x => k))
  (at level 100, c at next level, right associativity) : nothrow_scope.
Notation "x <~ c ;; k" := (th_bind c (fun x => k))
  (at level 100, c at next level, right associativity) : throwing_scope.

(* ===================================================================== *)
(** ** class allocation *)

Module allocation.
Section Members.
Context `{Platform} {World : Type} `{!Kernel World}.

Definition dispatch (op : batch_op) :=
  match op with
  | op_map => allocation_map
  | op_unmap => allocation_unmap
  | op_prefault => allocation_prefault
  | op_discard => allocation_discard
  end.

(** A call of one of the virtual batch members on [this], logged. *)
Definition virtual_batch (op : batch_op) (this : allocation_id)
    (m : list map_t) : NoThrow (machine World) (list map_t * size_type) :=
  fun s =>
    let (r, w') := dispatch op this m (world s) in
    (r, mk_machine w' (trace s ++ [ev_batch op this m])).

(** [virtual size_type size() const noexcept = 0] *)
Definition size (this : allocation_id) : NoThrow (machine World) size_type :=
  fun s => (allocation_size this (world s), s).

(** [virtual size_type map(map_t *m, size_type no) noexcept = 0] and
    [virtual size_type unmap(map_t *m, size_type no) noexcept = 0]:
    the canonical batch forms. *)
Definition map := virtual_batch op_map.
Definition unmap := virtual_batch op_unmap.
Definition prefault := virtual_batch op_prefault.
Definition discard := virtual_batch op_discard.

(** [bool map(map_t &m) { return 1==map(&m, 1); }] and its siblings (the
    header has [map(&m 1)], the comma is missing).  The descriptor is
    passed by reference; its new contents are returned first.  An array of
    one descriptor goes to the batch member and element 0 is read back. *)
Definition map_one (this : allocation_id) (m : map_t)
  : NoThrow (machine World) (map_t * bool) :=
  (r <~ map this [m] ;;
   nt_ret (hd m (fst r), 1 =? snd r))%nothrow.

Definition unmap_one (this : allocation_id) (m : map_t)
  : NoThrow (machine World) (map_t * bool) :=
  (r <~ unmap this [m] ;;
   nt_ret (hd m (fst r), 1 =? snd r))%nothrow.

(** [bool prefault(map_t &m) { return 1==prefault(&m, 1); }] and
    [bool discard(map_t &m) { return 1==discard(&m, 1); }], written like
    the two above. *)
Definition prefault_one (this : allocation_id) (m : map_t)
  : NoThrow (machine World) (map_t * bool) :=
  (r <~ prefault this [m] ;;
   nt_ret (hd m (fst r), 1 =? snd r))%nothrow.

Definition discard_one (this : allocation_id) (m : map_t)
  : NoThrow (machine World) (map_t * bool) :=
  (r <~ discard this [m] ;;
   nt_ret (hd m (fst r), 1 =? snd r))%nothrow.

(** The iterator-pair overloads:
    [size_type ret=0;
     for(; begin!=end; ++begin) ret+=OP(&*begin, 1);
     return ret;]
    (the header dereferences [begin()], with a stray call) over the elements
    between [begin] and [end], which are updated in place: the first
    component of the result is the sequence afterwards.  [ret] is the running
    count, a [size_type]. *)
Fixpoint range_loop (op : batch_op) (this : allocation_id)
    (c : list map_t) (ret : size_type)
  : NoThrow (machine World) (list map_t * size_type) :=
  match c with
  | [] => nt_ret ([], ret)
  | m :: rest =>
      (r <~ virtual_batch op this [m] ;;
       k <~ range_loop op this rest (wrap (ret + snd r)) ;;
       nt_ret (hd m (fst r) :: fst k, snd k))%nothrow
  end.

Definition map_range (this : allocation_id) (c : list map_t) :=
  range_loop op_map this c 0.
Definition unmap_range (this : allocation_id) (c : list map_t) :=
  range_loop op_unmap this c 0.
Definition prefault_range (this : allocation_id) (c : list map_t) :=
  range_loop op_prefault this c 0.
Definition discard_range (this : allocation_id) (c : list map_t) :=
  range_loop op_discard this c 0.

(** The container overloads, each forwarding [std::begin(cont)] and
    [std::end(cont)] to an iterator-pair overload.
    - [map(T &&cont)      { return map(begin, end); }]
    - [unmap(T &&cont)    { return map(begin, end); }]
    - [prefault(T &&cont) { return prefault(begin, end); }]
    - [discard(T &&cont)  { return discard(begin, end); }] *)
Definition map_container (this : allocation_id) (cont : list map_t) :=
  map_range this cont.
Definition unmap_container (this : allocation_id) (cont : list map_t) :=
  map_range this cont.
Definition prefault_container (this : allocation_id) (cont : list map_t) :=
  prefault_range this cont.
Definition discard_container (this : allocation_id) (cont : list map_t) :=
  discard_range this cont.

(** The [std::vector<map_t>] overloads:
    [return OP(c.data(), c.size());] *)
Definition map_vector (this : allocation_id) (c : list map_t) :=
  map this c.
Definition unmap_vector (this : allocation_id) (c : list map_t) :=
  unmap this c.

Definition prefault_vector (this : allocation_id) (c : list map_t) :=
  prefault this c.
Definition discard_vector (this : allocation_id) (c : list map_t) :=
  discard this c.

(** [map_t map() noexcept { map_t m(0, size()); map(&m, 1); return m; }] *)
Definition map_all (this : allocation_id) : NoThrow (machine World) map_t :=
  (sz <~ size this ;;
   let m := map_t_range 0 sz in
   r <~ map this [m] ;;
   nt_ret (hd m (fst r)))%nothrow.
End Members.
End allocation.

(* ===================================================================== *)
(** ** class provider *)

Module provider.
Section Members.
Context {World : Type} `{!Kernel World}.

(** [virtual pointer allocate(error_code &ec, size_type bytes) noexcept = 0],
    logged. *)
Definition allocate (this : provider_id) (ec : error_code)
    (bytes : size_type)
  : NoThrow (machine World) (error_code * allocation_ptr) :=
  fun s =>
    let (r, w') := provider_allocate this ec bytes (world s) in
    (r, mk_machine w' (trace s ++ [ev_provider_allocate this bytes])).

(** [virtual pointer allocation(void *addr, allocation::map_t *map) noexcept
    = 0], logged. *)
Definition allocation (this : provider_id) (addr : pointer) (map : map_t)
  : NoThrow (machine World) (allocation_ptr * map_t) :=
  fun s =>
    let (r, w') := provider_allocation this addr map (world s) in
    (r, mk_machine w' (trace s ++ [ev_provider_allocation this addr map])).
End Members.
End provider.

(* ===================================================================== *)
(** ** class template allocator<T> *)

(** The one data member: [std::shared_ptr<provider> _provider]. *)
Record allocator (T : elem_type) := mk_allocator {
  _provider : provider_ptr
}.
Arguments mk_allocator {T} _.
Arguments _provider {T} _.

(** The state a member function of [allocator<T>] runs in: the object it is
    called on and the machine. *)
Record frame (T : elem_type) (World : Type) := mk_frame {
  self : allocator T;
  mach : machine World
}.
Arguments mk_frame {T World} _ _.
Arguments self {T World} _.
Arguments mach {T World} _.

Module allocator_members.
Section Members.
Context `{Platform} {World : Type} `{!Kernel World}.

(** [allocator() noexcept { }] *)
Definition ctor_default {T} : allocator T := mk_allocator None.

(** [allocator(const allocator &o) noexcept : _provider(o._provider) { }] *)
Definition ctor_copy {T} (o : allocator T) : allocator T :=
  mk_allocator (_provider o).

(** [allocator(allocator &&o) noexcept : _provider(std::move(o._provider)) { }].
    The second component is [o] after the call: moving a [shared_ptr]
    leaves its source empty. *)
Definition ctor_move {T} (o : allocator T) : allocator T * allocator T :=
  (mk_allocator (_provider o), mk_allocator None).

(** [template<class U> allocator(const allocator<U> &o) noexcept
      : _provider(o._provider) { }],
    the constructor [rebind<U>::other] is built with. *)
Definition ctor_convert {U} (T : elem_type) (o : allocator U) : allocator T :=
  mk_allocator (_provider o).

(** [template<class U> allocator(allocator<U> &&o) noexcept
      : _provider(std::move(o._provider)) { }].
    Moving a [shared_ptr] empties its source; the second component is [o]
    after the call. *)
Definition ctor_convert_move {U} (T : elem_type) (o : allocator U)
  : allocator T * allocator U :=
  (mk_allocator (_provider o), mk_allocator None).

(** [size_type max_size() const noexcept
      { return ((size_type)-1)/sizeof(T); }] *)
Definition max_size {T} (this : allocator T) : size_type :=
  wrap (-1) / sizeof T.

(** Reading [*this], and running a [noexcept] call from a member. *)
Definition get_this {T} : Throwing (frame T World) (allocator T) :=
  fun f => (Returns (self f), f).

Definition call {T A} (c : NoThrow (machine World) A)
  : Throwing (frame T World) A :=
  fun f => let (a, m') := c (mach f) in (Returns a, mk_frame (self f) m').

(** [pointer allocate(size_type n, std::allocator<void>::const_pointer hint=0)]
    <<
      if(!_provider) throw std::invalid_argument("Unset provider");
      if(n>max_size()) throw std::bad_alloc();
      error_code ec;
      size_type bytes=n*sizeof(T);
      auto a(_provider->allocate(ec, bytes));
      if(ec || !a) throw std::system_error(ec);
      auto m(a->map());
      if(!m->addr) throw std::bad_alloc();
      return static_cast<pointer>(m->addr);
    >>
    [m] is the [map_t] that [map()] returns by value; [m->addr] is read as
    its [addr] field. *)
Definition allocate {T} (n : size_type) (hint : pointer)
  : Throwing (frame T World) pointer :=
  (this <~ get_this ;;
   match _provider this with
   | None => throw (invalid_argument "Unset provider")
   | Some prov =>
       if n >? max_size this then throw bad_alloc else
       let ec := no_error in
       let bytes := wrap (n * sizeof T) in
       r <~ call (provider.allocate prov ec bytes) ;;
       let ec := fst r in
       match ec_set ec, snd r with
       | false, Some a =>
           m <~ call (allocation.map_all a) ;;
           if m_addr m =? nullptr then throw bad_alloc
           else th_ret (m_addr m)
       | _, _ => throw (system_error ec None)   (* [if(ec || !a)] *)
       end
   end)%throwing.

(** [void deallocate(pointer p, size_type n)]
    <<
      if(!_provider) throw std::invalid_argument("Unset provider");
      allocation::map_t m;
      auto a(_provider->allocation(p, &m));
      if(!a) throw std::invalid_argument("Address not found");
      a->unmap(m);
      if(m.ec) throw std::system_error(m.ec, "Failed to unmap allocation");
    >>
    [a->unmap(m)] on an lvalue [map_t] is the single descriptor overload. *)
Definition deallocate {T} (p : pointer) (n : size_type)
  : Throwing (frame T World) unit :=
  (this <~ get_this ;;
   match _provider this with
   | None => throw (invalid_argument "Unset provider")
   | Some prov =>
       let m := map_t_default in
       r <~ call (provider.allocation prov p m) ;;
       let m := snd r in
       match fst r with
       | None => throw (invalid_argument "Address not found")
       | Some a =>
           u <~ call (allocation.unmap_one a m) ;;
           let m := fst u in
           if ec_set (m_ec m)
           then throw (system_error (m_ec m) (Some "Failed to unmap allocation"%string))
           else th_ret tt
       end
   end)%throwing.

(** [operator==(const allocator<A> &a, const allocator<B> &b)
      { return a._provider==b._provider; }] *)
Definition operator_eq {A B} (a : allocator A) (b : allocator B) : bool :=
  shared_ptr_eqb (_provider a) (_provider b).

(** [operator!=(const allocator<A> &a, const allocator<B> &b)
      { return a._provider!=b._provider; }] *)
Definition operator_ne {A B} (a : allocator A) (b : allocator B) : bool :=
  shared_ptr_neb (_provider a) (_provider b).
End Members.
End allocator_members.

(* ===================================================================== *)
(** ** A concrete provider

    The header ships no provider.  To run the members above, this is a small
    test provider implementing the virtual interface: one provider object
    handing out allocations from a fixed arena, with the reverse lookup
    table from mapped addresses to allocations that [provider::allocation]
    needs. *)

Module Mock.

Definition ENOMEM : error_code := 12.
Definition EINVAL : error_code := 22.

Record arena := mk_arena {
  arena_base : pointer;                         (* first address handed out *)
  arena_size : size_type;                       (* bytes in the arena *)
  arena_used : size_type;                       (* bytes reserved so far *)
  refuse : bool;                                (* fail every [allocate] *)
  next_id : allocation_id;
  allocations : gmap allocation_id (pointer * size_type);  (* base, size *)
  mapped : gmap pointer (allocation_id * size_type * size_type)
                                                (* addr -> owner, offset, length *)
}.

Definition fresh (size : size_type) (refuse : bool) : arena :=
  mk_arena 65536 size 0 refuse 1%positive ∅ ∅.

Definition mock_allocate (p : provider_id) (ec : error_code)
    (bytes : size_type) (w : arena) : (error_code * allocation_ptr) * arena :=
  if refuse w || (arena_size w - arena_used w <? bytes)
  then ((ENOMEM, None), w)
  else
    let a := next_id w in
    ((ec, Some a),
     mk_arena (arena_base w) (arena_size w) (arena_used w + bytes) (refuse w)
       (Pos.succ a)
       (<[a := (arena_base w + arena_used w, bytes)]> (allocations w))
       (mapped w)).

Definition mock_allocation (p : provider_id) (addr : pointer) (m : map_t)
    (w : arena) : (allocation_ptr * map_t) * arena :=
  match mapped w !! addr with
  | Some (a, off, len) => ((Some a, mk_map_t addr off len no_error), w)
  | None => ((None, m), w)
  end.

Definition mock_size (a : allocation_id) (w : arena) : size_type :=
  match allocations w !! a with
  | Some (_, sz) => sz
  | None => 0
  end.

Definition set_mapped (w : arena)
    (t : gmap pointer (allocation_id * size_type * size_type)) : arena :=
  mk_arena (arena_base w) (arena_size w) (arena_used w) (refuse w)
    (next_id w) (allocations w) t.

Definition failed (m : map_t) (e : error_code) : map_t :=
  mk_map_t nullptr (m_offset m) (m_length m) e.

(** One descriptor of a batch: the new descriptor, whether it succeeded and
    the new state. *)
Definition map1 (a : allocation_id) (m : map_t) (w : arena)
  : map_t * bool * arena :=
  match allocations w !! a with
  | Some (base, sz) =>
      if (0 <=? m_offset m) && (0 <=? m_length m)
         && (m_offset m + m_length m <=? sz)
      then
        let addr := base + m_offset m in
        (mk_map_t addr (m_offset m) (m_length m) no_error, true,
         set_mapped w (<[addr := (a, m_offset m, m_length m)]> (mapped w)))
      else (failed m EINVAL, false, w)
  | None => (failed m EINVAL, false, w)
  end.

Definition unmap1 (a : allocation_id) (m : map_t) (w : arena)
  : map_t * bool * arena :=
  match mapped w !! m_addr m with
  | Some (a', off, len) =>
      if Pos.eqb a a'
      then (mk_map_t (m_addr m) (m_offset m) (m_length m) no_error, true,
            set_mapped w (delete (m_addr m) (mapped w)))
      else (mk_map_t (m_addr m) (m_offset m) (m_length m) EINVAL, false, w)
  | None => (mk_map_t (m_addr m) (m_offset m) (m_length m) EINVAL, false, w)
  end.

Definition touch1 (a : allocation_id) (m : map_t) (w : arena)
  : map_t * bool * arena :=
  match mapped w !! m_addr m with
  | Some _ => (mk_map_t (m_addr m) (m_offset m) (m_length m) no_error, true, w)
  | None => (mk_map_t (m_addr m) (m_offset m) (m_length m) EINVAL, false, w)
  end.

(** A batch is its descriptors in order; the count is that of the
    successes. *)
Fixpoint batch (f : map_t -> arena -> map_t * bool * arena)
    (ms : list map_t) (w : arena) : (list map_t * size_type) * arena :=
  match ms with
  | [] => (([], 0), w)
  | m :: rest =>
      let '(m', ok, w') := f m w in
      let '((rest', n), w'') := batch f rest w' in
      ((m' :: rest', if ok then n + 1 else n), w'')
  end.

Definition LP64 : Platform := {| size_bits := 64 |}.

Definition kernel : Kernel arena := {|
  provider_allocate := mock_allocate;
  provider_allocation := mock_allocation;
  allocation_size := mock_size;
  allocation_map := fun a => batch (map1 a);
  allocation_unmap := fun a => batch (unmap1 a);
  allocation_prefault := fun a => batch (touch1 a);
  allocation_discard := fun a => batch (touch1 a)
|}.

(** An 8-byte element type, and an allocator bound to provider object 1. *)
Definition T8 : elem_type := mk_elem_type 8.
Definition T1 : elem_type := mk_elem_type 1.
Definition the_provider : provider_id := 1%positive.
Definition bound (T : elem_type) : allocator T := mk_allocator (Some the_provider).

Definition boot (size : size_type) (refuse : bool) : machine arena :=
  mk_machine (fresh size refuse) [].

#[local] Existing Instance LP64.
#[local] Existing Instance kernel.

(** A fresh 4096-byte arena, an allocator of 8-byte elements on it. *)
Definition f0 : frame T8 arena := mk_frame (bound T8) (boot 4096 false).

(** The same arena after [allocate(100)]: 800 bytes reserved and mapped at
    65536. *)
Definition f1 : frame T8 arena :=
  snd (allocator_members.allocate 100 nullptr f0).

(** The arena after the provider reserved 800 bytes that nobody mapped. *)
Definition s_reserved : machine arena :=
  snd (provider.allocate the_provider no_error 800 (boot 4096 false)).

(** A provider that refuses every reservation. *)
Definition f_refusing : frame T8 arena := mk_frame (bound T8) (boot 4096 true).

(** An allocator that was never given a provider. *)
Definition f_unbound : frame T8 arena :=
  mk_frame allocator_members.ctor_default (boot 4096 false).

Definition mapped_800 : map_t := mk_map_t 65536 0 800 no_error.

(** Whether the provider still resolves [addr] in state [s]. *)
Definition resolves (addr : pointer) (s : machine arena) : allocation_ptr :=
  fst (fst (provider_allocation the_provider addr map_t_default (world s))).

End Mock.


(* ===================================================================== *)
(** ** Reading the call log *)

Definition batch_op_eqb (x y : batch_op) : bool :=
  match x, y with
  | op_map, op_map | op_unmap, op_unmap
  | op_prefault, op_prefault | op_discard, op_discard => true
  | _, _ => false
  end.

Definition is_provider_allocate (e : event) : bool :=
  match e with ev_provider_allocate _ _ => true | _ => false end.

Definition is_provider_allocation (e : event) : bool :=
  match e with ev_provider_allocation _ _ _ => true | _ => false end.

Definition is_batch (op : batch_op) (e : event) : bool :=
  match e with ev_batch op' _ _ => batch_op_eqb op op' | _ => false end.

(** How many logged calls satisfy [f]. *)
Definition calls (f : event -> bool) (t : list event) : nat :=
  List.length (List.filter f t).

(** The "whole allocation" convenience as the specification words it: the
    canonical batch map applied to the single descriptor with offset 0 and
    length [size()], returning that descriptor as the batch left it. *)
Definition map_all_spec `{Platform} {World : Type} `{!Kernel World}
    (this : allocation_id) : NoThrow (machine World) map_t :=
  fun s =>
    let d := mk_map_t nullptr 0 (allocation_size this (world s)) no_error in
    let (r, s') := allocation.map this [d] s in
    (hd d (fst r), s').

(* ===================================================================== *)
(** ** Callers of the allocator, and a convention for providers *)

(** One call of a member of [allocator<T>], as a container issues it. *)
Inductive request :=
| req_allocate (n : size_type) (hint : pointer)
| req_deallocate (p : pointer) (n : size_type).

(** A caller: a finite program that calls [allocate] and [deallocate] on
    one allocator object, catches whatever they throw, and chooses what to
    do next from the outcome. *)
Inductive client :=
| stop
| call_allocate (n : size_type) (hint : pointer)
    (k : outcome pointer -> client)
| call_deallocate (p : pointer) (n : size_type) (k : outcome unit -> client).

(** Running a caller: the requests it issued, in order, and the final
    state. *)
Fixpoint run_client `{Platform} {World : Type} `{!Kernel World}
    {T : elem_type} (c : client) (f : frame T World)
  : list request * frame T World :=
  match c with
  | stop => ([], f)
  | call_allocate n hint k =>
      let (o, f') := allocator_members.allocate n hint f in
      let (h, f'') := run_client (k o) f' in
      (req_allocate n hint :: h, f'')
  | call_deallocate p n k =>
      let (o, f') := allocator_members.deallocate p n f in
      let (h, f'') := run_client (k o) f' in
      (req_deallocate p n :: h, f'')
  end.

(** The [allocate] requests that pass the size check of an allocator of
    [T], and the [deallocate] requests. *)
Definition passes_size_check `{Platform} {T : elem_type} (a : allocator T)
    (r : request) : bool :=
  match r with
  | req_allocate n _ => negb (n >? allocator_members.max_size a)
  | req_deallocate _ _ => false
  end.

Definition is_deallocate (r : request) : bool :=
  match r with req_deallocate _ _ => true | req_allocate _ _ => false end.

(** A provider may implement a batch member of allocation [a] as one call
    per descriptor, in order: nothing for an empty array, otherwise the
    first descriptor alone and then the rest, adding the counts; a call on
    one descriptor counts 0 or 1. *)
Definition sequential_batch {World : Type} `{!Kernel World}
    (op : batch_op) (a : allocation_id) : Prop :=
  (forall w, allocation.dispatch op a [] w = (([], 0), w))
  /\ (forall m rest w,
        allocation.dispatch op a (m :: rest) w
        = let (r1, w1) := allocation.dispatch op a [m] w in
          let (r2, w2) := allocation.dispatch op a rest w1 in
          ((hd m (fst r1) :: fst r2, snd r1 + snd r2), w2))
  /\ (forall m w, 0 <= snd (fst (allocation.dispatch op a [m] w)) <= 1).

(** A single descriptor overload and an iterator-pair overload have the same
    effect on [m] from state [s]: the same descriptor afterwards, the same
    final state, and the [bool] of the first says whether the count of the
    second is 1. *)
Definition agrees_on {S : Type} (m : map_t) (s : S)
    (one : map_t -> NoThrow S (map_t * bool))
    (range : list map_t -> NoThrow S (list map_t * size_type)) : Prop :=
  fst (fst (range [m] s)) = [fst (fst (one m s))]
  /\ snd (fst (one m s)) = (snd (fst (range [m] s)) =? 1)
  /\ snd (range [m] s) = snd (one m s).

(** An allocator on which, from every state and for all arguments, both
    [allocate] and [deallocate] throw [invalid_argument("Unset provider")]
    and leave the state as it was. *)
Definition refuses_all `{Platform} {World : Type} `{!Kernel World}
    {T : elem_type} (x : allocator T) : Prop :=
  forall (s : machine World) (n : size_type) (hint p : pointer),
    allocator_members.allocate n hint (mk_frame x s)
      = (Throws (invalid_argument "Unset provider"), mk_frame x s)
    /\ allocator_members.deallocate p n (mk_frame x s)
       = (Throws (invalid_argument "Unset provider"), mk_frame x s).

(** The number of virtual calls logged between two states. *)
Definition new_calls {World : Type} (before after : machine World) : nat :=
  (List.length (trace after) - List.length (trace before))%nat.

(** What a run from [f] to [f'] that issued the requests [h] may have done:
    the allocator object is unchanged; on an unbound allocator nothing was
    called; on a bound one the calls of [provider::allocate] are as many as
    the [allocate] requests that pass the size check, the reverse lookups as
    many as the [deallocate] requests, there is at most one [map] per such
    [allocate] and at most one [unmap] per [deallocate], and [prefault] and
    [discard] were not called. *)
Definition accounted `{Platform} {World : Type} {T : elem_type}
    (f : frame T World) (h : list request) (f' : frame T World) : Prop :=
  let count (k : event -> bool) (x : frame T World) :=
    calls k (trace (mach x)) in
  let passed := List.length (List.filter (passes_size_check (self f)) h) in
  let freed := List.length (List.filter is_deallocate h) in
  self f' = self f
  /\ (_provider (self f) = None -> mach f' = mach f)
  /\ (_provider (self f) <> None ->
       count is_provider_allocate f'
         = (count is_provider_allocate f + passed)%nat
       /\ count is_provider_allocation f'
          = (count is_provider_allocation f + freed)%nat
       /\ (count (is_batch op_map) f <= count (is_batch op_map) f'
             <= count (is_batch op_map) f + passed)%nat
       /\ (count (is_batch op_unmap) f <= count (is_batch op_unmap) f'
             <= count (is_batch op_unmap) f + freed)%nat
       /\ count (is_batch op_prefault) f' = count (is_batch op_prefault) f
       /\ count (is_batch op_discard) f' = count (is_batch op_discard) f).

(* ===================================================================== *)
(** ** Arithmetic of [size_type] *)

Section SizeTypeFacts.
Context `{Platform}.

Lemma pow_size_bits_pos : 0 < 2 ^ Z.pos size_bits.
Proof. apply Z.pow_pos_nonneg; lia. Qed.

Lemma wrap_minus_one : wrap (-1) = SIZE_MAX.
Proof.
  unfold wrap, SIZE_MAX.
  pose proof pow_size_bits_pos as Hp.
  symmetry. apply (Z.mod_unique_pos _ _ (-1)); lia.
Qed.

Lemma wrap_small (x : Z) : 0 <= x <= SIZE_MAX -> wrap x = x.
Proof.
  unfold wrap, SIZE_MAX. intros Hx. apply Z.mod_small. lia.
Qed.

Lemma gtb_false (n m : Z) : n <= m -> (n >? m) = false.
Proof.
  intros Hle. unfold Z.gtb. destruct (Z.compare_spec n m); try reflexivity. lia.
Qed.

Lemma gtb_true (n m : Z) : n > m -> (n >? m) = true.
Proof.
  intros Hgt. unfold Z.gtb. destruct (Z.compare_spec n m); try reflexivity; lia.
Qed.

Lemma max_size_unfold (T : elem_type) (a : allocator T) :
  allocator_members.max_size a = SIZE_MAX / sizeof T.
Proof. unfold allocator_members.max_size. now rewrite wrap_minus_one. Qed.

(** Below [max_size()] the product with [sizeof(T)] stays within
    [size_type]. *)
Lemma product_fits (T : elem_type) (a : allocator T) (n : Z) :
  0 < sizeof T -> 0 <= n -> n <= allocator_members.max_size a ->
  0 <= n * sizeof T <= SIZE_MAX.
Proof.
  intros Hs Hn Hmax. rewrite max_size_unfold in Hmax.
  split; [nia|].
  pose proof (Z.mul_div_le SIZE_MAX (sizeof T) Hs) as Hle.
  nia.
Qed.

Lemma calls_app (f : event -> bool) (t u : list event) :
  calls f (t ++ u) = (calls f t + calls f u)%nat.
Proof. unfold calls. now rewrite List.filter_app, List.length_app. Qed.
End SizeTypeFacts.

(* ===================================================================== *)
(** ** allocator<T>::allocate and allocator<T>::deallocate *)

Section Adapter.
Context `{Platform} {World : Type} `{!Kernel World}.
Import allocator_members.

Local Ltac run_member :=
  unfold allocate, deallocate, th_bind, th_ret, throw, get_this, call,
    provider.allocate, provider.allocation, allocation.map_all,
    allocation.unmap_one, allocation.map, allocation.unmap,
    allocation.virtual_batch, allocation.size, allocation.dispatch,
    nt_bind, nt_ret; cbn [fst snd self mach world trace].

(** C1.  On an allocator bound to a provider [prov], for an element count
    [n <= max_size()], [allocate(n)] asks [prov] for exactly [n * sizeof(T)]
    bytes, once.  If the provider sets the error code or returns an empty
    pointer the call throws [system_error] and nothing is mapped.  Otherwise
    the whole allocation (offset 0, length [size()]) is mapped by one call of
    the batch [map] on one descriptor, and the call returns the address left
    in that descriptor, or throws [bad_alloc] if that address is null.  No
    other virtual member is called. *)
Theorem allocate_calls_provider_then_maps
    (T : elem_type) (f : frame T World) (prov : provider_id)
    (n : size_type) (hint : pointer)
    (ec : error_code) (a : allocation_ptr) (w1 : World) :
  0 < sizeof T ->
  _provider (self f) = Some prov ->
  0 <= n <= max_size (self f) ->
  provider_allocate prov no_error (n * sizeof T) (world (mach f))
    = ((ec, a), w1) ->
  let asked := ev_provider_allocate prov (n * sizeof T) in
  let before := trace (mach f) in
  let after := trace (mach (snd (allocate n hint f))) in
  calls is_provider_allocate after = S (calls is_provider_allocate before)
  /\ (ec_set ec = true \/ a = None ->
        allocate n hint f
          = (Throws (system_error ec None),
             mk_frame (self f) (mk_machine w1 (before ++ [asked])))
        /\ calls (is_batch op_map) after = calls (is_batch op_map) before)
  /\ (forall (al : allocation_id) (ms : list map_t) (cnt : size_type)
             (w2 : World),
        ec_set ec = false -> a = Some al ->
        let whole := map_t_range 0 (allocation_size al w1) in
        allocation_map al [whole] w1 = ((ms, cnt), w2) ->
        allocate n hint f
          = ((if m_addr (hd whole ms) =? nullptr then Throws bad_alloc
              else Returns (m_addr (hd whole ms))),
             mk_frame (self f)
               (mk_machine w2 (before ++ [asked; ev_batch op_map al [whole]])))
        /\ calls (is_batch op_map) after
             = S (calls (is_batch op_map) before)).
Proof.
  intros Hsz Hprov [Hn0 Hmax] Hcall asked before after.
  assert (Hbytes : wrap (n * sizeof T) = n * sizeof T).
  { apply wrap_small. now apply (product_fits T (self f)). }
  assert (Hrun : forall al ms cnt w2,
             ec_set ec = false -> a = Some al ->
             allocation_map al [map_t_range 0 (allocation_size al w1)] w1
               = ((ms, cnt), w2) ->
             allocate n hint f
             = ((if m_addr (hd (map_t_range 0 (allocation_size al w1)) ms)
                      =? nullptr
                 then Throws bad_alloc
                 else Returns
                        (m_addr (hd (map_t_range 0 (allocation_size al w1)) ms))),
                mk_frame (self f)
                  (mk_machine w2
                     (before ++ [asked;
                        ev_batch op_map al
                          [map_t_range 0 (allocation_size al w1)]])))).
  { intros al ms cnt w2 Hec Ha Hmap. subst a. run_member.
    rewrite Hprov, (gtb_false _ _ Hmax), Hbytes, Hcall.
    cbn [fst snd self mach world trace]. rewrite Hec.
    cbn [fst snd self mach world trace]. rewrite Hmap.
    cbn [fst snd self mach world trace].
    rewrite <- List.app_assoc. cbn [List.app].
    now destruct (m_addr _ =? nullptr). }
  assert (Hfail : ec_set ec = true \/ a = None ->
             allocate n hint f
             = (Throws (system_error ec None),
                mk_frame (self f) (mk_machine w1 (before ++ [asked])))).
  { intros Hbad. run_member.
    rewrite Hprov, (gtb_false _ _ Hmax), Hbytes, Hcall.
    cbn [fst snd self mach world trace].
    destruct (ec_set ec) eqn:Hec; [reflexivity|].
    destruct Hbad as [Hbad|Hbad]; [discriminate|]. now rewrite Hbad. }
  assert (Hcases : ec_set ec = true \/ a = None
                   \/ exists al, ec_set ec = false /\ a = Some al).
  { destruct (ec_set ec); [now left|]. destruct a as [al|]; eauto. }
  split; [|split].
  - subst after.
    destruct Hcases as [Hbad | [Hbad | (al & Hec & Ha)]].
    + rewrite (Hfail (or_introl Hbad)). cbn [snd mach trace].
      rewrite calls_app. cbn. lia.
    + rewrite (Hfail (or_intror Hbad)). cbn [snd mach trace].
      rewrite calls_app. cbn. lia.
    + destruct (allocation_map al [map_t_range 0 (allocation_size al w1)] w1)
        as [[ms cnt] w2] eqn:Hmap.
      rewrite (Hrun al ms cnt w2 Hec Ha Hmap). cbn [snd mach trace].
      rewrite calls_app. cbn. lia.
  - intros Hbad. split; [now apply Hfail|].
    subst after. rewrite (Hfail Hbad). cbn [snd mach trace].
    rewrite calls_app. cbn. lia.
  - intros al ms cnt w2 Hec Ha whole Hmap.
    split; [now apply (Hrun al ms cnt w2)|].
    subst after. rewrite (Hrun al ms cnt w2 Hec Ha Hmap). cbn [snd mach trace].
    rewrite calls_app. cbn. lia.
Qed.

(** C2.  On an allocator bound to a provider [prov], [deallocate(p, n)]
    performs the reverse lookup [prov->allocation(p, &m)] exactly once, on a
    default constructed descriptor.  If the lookup returns an empty pointer
    the call throws [invalid_argument("Address not found")] and no unmap is
    performed.  Otherwise the batch [unmap] is called once, on exactly the
    descriptor the lookup filled in, and the call throws [system_error]
    when that descriptor's error code is set afterwards. *)
Theorem deallocate_looks_up_then_unmaps
    (T : elem_type) (f : frame T World) (prov : provider_id)
    (p : pointer) (n : size_type)
    (a : allocation_ptr) (m : map_t) (w1 : World) :
  _provider (self f) = Some prov ->
  provider_allocation prov p map_t_default (world (mach f)) = ((a, m), w1) ->
  let lookup := ev_provider_allocation prov p map_t_default in
  let before := trace (mach f) in
  let after := trace (mach (snd (deallocate p n f))) in
  calls is_provider_allocation after = S (calls is_provider_allocation before)
  /\ (a = None ->
        deallocate p n f
          = (Throws (invalid_argument "Address not found"),
             mk_frame (self f) (mk_machine w1 (before ++ [lookup])))
        /\ calls (is_batch op_unmap) after = calls (is_batch op_unmap) before)
  /\ (forall (al : allocation_id) (ms : list map_t) (cnt : size_type)
             (w2 : World),
        a = Some al ->
        allocation_unmap al [m] w1 = ((ms, cnt), w2) ->
        let m' := hd m ms in
        deallocate p n f
          = ((if ec_set (m_ec m')
              then Throws (system_error (m_ec m')
                             (Some "Failed to unmap allocation"%string))
              else Returns tt),
             mk_frame (self f)
               (mk_machine w2 (before ++ [lookup; ev_batch op_unmap al [m]])))
        /\ calls (is_batch op_unmap) after
             = S (calls (is_batch op_unmap) before)).
Proof.
  intros Hprov Hcall lookup before after.
  assert (Hmiss : a = None ->
             deallocate p n f
             = (Throws (invalid_argument "Address not found"),
                mk_frame (self f) (mk_machine w1 (before ++ [lookup])))).
  { intros ->. run_member. rewrite Hprov, Hcall. reflexivity. }
  assert (Hhit : forall al ms cnt w2,
             a = Some al -> allocation_unmap al [m] w1 = ((ms, cnt), w2) ->
             deallocate p n f
             = ((if ec_set (m_ec (hd m ms))
                 then Throws (system_error (m_ec (hd m ms))
                                (Some "Failed to unmap allocation"%string))
                 else Returns tt),
                mk_frame (self f)
                  (mk_machine w2
                     (before ++ [lookup; ev_batch op_unmap al [m]])))).
  { intros al ms cnt w2 -> Hunmap. run_member. rewrite Hprov, Hcall.
    cbn [fst snd self mach world trace]. rewrite Hunmap.
    cbn [fst snd self mach world trace].
    rewrite <- List.app_assoc. cbn [List.app].
    now destruct (ec_set _). }
  split; [|split].
  - subst after. destruct a as [al|].
    + destruct (allocation_unmap al [m] w1) as [[ms cnt] w2] eqn:Hunmap.
      rewrite (Hhit al ms cnt w2 eq_refl Hunmap). cbn [snd mach trace].
      rewrite calls_app. cbn. lia.
    + rewrite (Hmiss eq_refl). cbn [snd mach trace].
      rewrite calls_app. cbn. lia.
  - intros Ha. split; [now apply Hmiss|].
    subst after. rewrite (Hmiss Ha). cbn [snd mach trace].
    rewrite calls_app. cbn. lia.
  - intros al ms cnt w2 Ha Hunmap m'.
    split; [now apply (Hhit al ms cnt w2)|].
    subst after. rewrite (Hhit al ms cnt w2 Ha Hunmap). cbn [snd mach trace].
    rewrite calls_app. cbn. lia.
Qed.

(** C4, as the code has it.  For an element count [n > max_size()]:
    on an allocator bound to a provider, [allocate(n)] throws [bad_alloc];
    on an unbound allocator the earlier check fires and it throws
    [invalid_argument("Unset provider")].  Either way the state is the one
    the call started in: no virtual member of the provider was called. *)
Theorem allocate_overflow_never_contacts_provider
    (T : elem_type) (f : frame T World) (n : size_type) (hint : pointer) :
  n > max_size (self f) ->
  (forall prov, _provider (self f) = Some prov ->
     allocate n hint f = (Throws bad_alloc, f))
  /\ (_provider (self f) = None ->
        allocate n hint f = (Throws (invalid_argument "Unset provider"), f))
  /\ calls is_provider_allocate (trace (mach (snd (allocate n hint f))))
       = calls is_provider_allocate (trace (mach f)).
Proof.
  intros Hgt.
  assert (Hb : forall prov, _provider (self f) = Some prov ->
                 allocate n hint f = (Throws bad_alloc, f)).
  { intros prov Hprov. run_member. now rewrite Hprov, (gtb_true _ _ Hgt). }
  assert (Hu : _provider (self f) = None ->
               allocate n hint f
               = (Throws (invalid_argument "Unset provider"), f)).
  { intros Hprov. run_member. now rewrite Hprov. }
  split; [exact Hb|split; [exact Hu|]].
  destruct (_provider (self f)) as [prov|] eqn:Hprov.
  - now rewrite (Hb prov eq_refl).
  - now rewrite (Hu eq_refl).
Qed.

(** Neither member assigns [_provider]: whatever the outcome, the allocator
    object is the one the call started with. *)
Lemma allocate_keeps_this
    (T : elem_type) (f : frame T World) (n : size_type) (hint : pointer) :
  self (snd (allocate n hint f)) = self f.
Proof.
  run_member.
  destruct (_provider (self f)) as [prov|]; [|reflexivity].
  destruct (n >? max_size (self f)); [reflexivity|].
  destruct (provider_allocate _ _ _ _) as [[ec a] w1].
  cbn [fst snd self mach world trace].
  destruct (ec_set ec); [reflexivity|].
  destruct a as [al|]; [|reflexivity].
  destruct (allocation_map _ _ _) as [[ms cnt] w2].
  cbn [fst snd self mach world trace].
  now destruct (m_addr _ =? nullptr).
Qed.

Lemma deallocate_keeps_this
    (T : elem_type) (f : frame T World) (p : pointer) (n : size_type) :
  self (snd (deallocate p n f)) = self f.
Proof.
  run_member.
  destruct (_provider (self f)) as [prov|]; [|reflexivity].
  destruct (provider_allocation _ _ _ _) as [[a m] w1].
  cbn [fst snd self mach world trace].
  destruct a as [al|]; [|reflexivity].
  destruct (allocation_unmap _ _ _) as [[ms cnt] w2].
  cbn [fst snd self mach world trace].
  now destruct (ec_set _).
Qed.

(** The first virtual call of [allocate] on a bound allocator, for a count
    within [max_size()], goes to the bound provider with the exact byte
    count; the first virtual call of [deallocate] is the reverse lookup on
    the bound provider. *)
Lemma allocate_first_call
    (T : elem_type) (f : frame T World) (prov : provider_id)
    (n : size_type) (hint : pointer) :
  0 < sizeof T ->
  0 <= n <= max_size (self f) ->
  _provider (self f) = Some prov ->
  nth_error (trace (mach (snd (allocate n hint f))))
    (List.length (trace (mach f)))
  = Some (ev_provider_allocate prov (n * sizeof T)).
Proof.
  intros Hsz [Hn0 Hmax] Hprov.
  assert (Hbytes : wrap (n * sizeof T) = n * sizeof T).
  { apply wrap_small. now apply (product_fits T (self f)). }
  run_member. rewrite Hprov, (gtb_false _ _ Hmax), Hbytes.
  destruct (provider_allocate _ _ _ _) as [[ec a] w1].
  cbn [fst snd self mach world trace].
  assert (Hnth : forall rest,
            nth_error ((trace (mach f)
                        ++ [ev_provider_allocate prov (n * sizeof T)]) ++ rest)
              (List.length (trace (mach f)))
            = Some (ev_provider_allocate prov (n * sizeof T))).
  { intros rest. rewrite <- List.app_assoc.
    rewrite List.nth_error_app2 by lia. now rewrite Nat.sub_diag. }
  destruct (ec_set ec).
  { cbn [snd mach trace]. rewrite <- (List.app_nil_r (_ ++ [_])). apply Hnth. }
  destruct a as [al|].
  2:{ cbn [snd mach trace]. rewrite <- (List.app_nil_r (_ ++ [_])). apply Hnth. }
  destruct (allocation_map _ _ _) as [[ms cnt] w2].
  cbn [fst snd self mach world trace].
  destruct (m_addr _ =? nullptr); cbn [snd mach trace]; apply Hnth.
Qed.

Lemma deallocate_first_call
    (T : elem_type) (f : frame T World) (prov : provider_id)
    (p : pointer) (n : size_type) :
  _provider (self f) = Some prov ->
  nth_error (trace (mach (snd (deallocate p n f))))
    (List.length (trace (mach f)))
  = Some (ev_provider_allocation prov p map_t_default).
Proof.
  intros Hprov. run_member. rewrite Hprov.
  destruct (provider_allocation _ _ _ _) as [[a m] w1].
  cbn [fst snd self mach world trace].
  assert (Hnth : forall rest,
            nth_error ((trace (mach f)
                        ++ [ev_provider_allocation prov p map_t_default])
                       ++ rest)
              (List.length (trace (mach f)))
            = Some (ev_provider_allocation prov p map_t_default)).
  { intros rest. rewrite <- List.app_assoc.
    rewrite List.nth_error_app2 by lia. now rewrite Nat.sub_diag. }
  destruct a as [al|].
  2:{ cbn [snd mach trace]. rewrite <- (List.app_nil_r (_ ++ [_])). apply Hnth. }
  destruct (allocation_unmap _ _ _) as [[ms cnt] w2].
  cbn [fst snd self mach world trace].
  destruct (ec_set _); cbn [snd mach trace]; apply Hnth.
Qed.

(** C9.  When [allocate] or [deallocate] throws, whatever the exception,
    the allocator object [f'] it leaves behind holds the provider pointer
    it held before the call and compares equal to a copy taken before the
    call; a later [allocate] or [deallocate] on it reaches that same
    provider. *)
Theorem failure_leaves_provider_binding
    (T : elem_type) (f f' : frame T World) (n : size_type) (hint p : pointer)
    (e : exception) :
  allocate n hint f = (Throws e, f') \/ deallocate p n f = (Throws e, f') ->
  _provider (self f') = _provider (self f)
  /\ operator_eq (self f') (ctor_copy (self f)) = true
  /\ (forall (prov : provider_id) (n2 : size_type) (hint2 : pointer),
        _provider (self f) = Some prov ->
        0 < sizeof T -> 0 <= n2 <= max_size (self f') ->
        nth_error (trace (mach (snd (allocate n2 hint2 f'))))
          (List.length (trace (mach f')))
        = Some (ev_provider_allocate prov (n2 * sizeof T)))
  /\ (forall (prov : provider_id) (p2 : pointer) (n2 : size_type),
        _provider (self f) = Some prov ->
        nth_error (trace (mach (snd (deallocate p2 n2 f'))))
          (List.length (trace (mach f')))
        = Some (ev_provider_allocation prov p2 map_t_default)).
Proof.
  intros Hfail.
  assert (Hself : self f' = self f).
  { destruct Hfail as [Hrun|Hrun].
    - rewrite <- (allocate_keeps_this T f n hint). now rewrite Hrun.
    - rewrite <- (deallocate_keeps_this T f p n). now rewrite Hrun. }
  assert (Hrefl : forall x : provider_ptr, shared_ptr_eqb x x = true).
  { intros [x|]; cbn; [apply Pos.eqb_refl | reflexivity]. }
  split; [now rewrite Hself|split; [|split]].
  - unfold operator_eq, ctor_copy. cbn. rewrite Hself. apply Hrefl.
  - intros prov n2 hint2 Hprov Hsz Hn2.
    apply allocate_first_call; [exact Hsz|exact Hn2|now rewrite Hself].
  - intros prov p2 n2 Hprov.
    apply deallocate_first_call. now rewrite Hself.
Qed.

(** C10.  For [0 <= n <= max_size()] the [size_type] product
    [n * sizeof(T)] computed by [allocate] does not wrap: it is the exact
    product, it is a [size_type], and it is the byte count of the call of
    [provider::allocate] that [allocate] logs. *)
Theorem allocate_bytes_do_not_wrap
    (T : elem_type) (f : frame T World) (prov : provider_id)
    (n : size_type) (hint : pointer) :
  0 < sizeof T ->
  0 <= n <= max_size (self f) ->
  _provider (self f) = Some prov ->
  wrap (n * sizeof T) = n * sizeof T
  /\ is_size_t (n * sizeof T)
  /\ nth_error (trace (mach (snd (allocate n hint f))))
       (List.length (trace (mach f)))
     = Some (ev_provider_allocate prov (n * sizeof T)).
Proof.
  intros Hsz Hn Hprov.
  pose proof (product_fits T (self f) n Hsz (proj1 Hn) (proj2 Hn)) as Hfit.
  split; [now apply wrap_small|split; [exact Hfit|]].
  now apply allocate_first_call.
Qed.

End Adapter.

Section AdapterValues.
Context `{Platform}.
Import allocator_members.

Lemma shared_ptr_eqb_eq (x y : provider_ptr) :
  shared_ptr_eqb x y = true <-> x = y.
Proof.
  destruct x as [x|], y as [y|]; cbn; try (split; congruence).
  rewrite Pos.eqb_eq. split; congruence.
Qed.

(** C5.  For allocators over any two element types, [operator==] returns
    [true] exactly when both hold the same provider object or both are
    unbound, and [operator!=] is its negation. *)
Theorem operator_eq_same_provider
    (A B : elem_type) (a : allocator A) (b : allocator B) :
  (operator_eq a b = true <->
     (exists prov, _provider a = Some prov /\ _provider b = Some prov)
     \/ (_provider a = None /\ _provider b = None))
  /\ operator_ne a b = negb (operator_eq a b).
Proof.
  split; [|reflexivity].
  unfold operator_eq. rewrite shared_ptr_eqb_eq.
  destruct (_provider a) as [x|], (_provider b) as [y|]; split.
  - intros Heq. left. exists x. split; congruence.
  - intros [(prov & Hx & Hy) | [Hx _]]; congruence.
  - discriminate.
  - intros [(prov & _ & Hy) | [Hx _]]; discriminate.
  - discriminate.
  - intros [(prov & Hx & _) | [_ Hy]]; discriminate.
  - now right.
  - reflexivity.
Qed.

(** C7.  [max_size()] is [floor((2^w - 1) / sizeof(T))]: an element count
    has a byte size within [size_type] exactly when it is at most
    [max_size()].  The value is the same on every allocator of the element
    type. *)
Theorem max_size_largest_count (T : elem_type) (a : allocator T) :
  0 < sizeof T ->
  max_size a = (2 ^ Z.pos size_bits - 1) / sizeof T
  /\ (forall n : Z, n <= max_size a <-> n * sizeof T <= 2 ^ Z.pos size_bits - 1)
  /\ (forall b : allocator T, max_size b = max_size a).
Proof.
  intros Hs.
  assert (Hm : forall b : allocator T,
             max_size b = (2 ^ Z.pos size_bits - 1) / sizeof T).
  { intros b. rewrite max_size_unfold. reflexivity. }
  split; [apply Hm|split].
  - intros n. rewrite Hm. split.
    + intros Hn.
      pose proof (Z.mul_div_le (2 ^ Z.pos size_bits - 1) (sizeof T) Hs). nia.
    + intros Hn. apply Z.div_le_lower_bound; [exact Hs|lia].
  - intros b. now rewrite !Hm.
Qed.

(** C8.  The converting constructors (the ones [rebind<U>::other] is built
    with) hand the source's provider pointer to the new allocator, which
    therefore compares equal to the source as it was. *)
Theorem rebind_keeps_provider (T U : elem_type) (a : allocator T) :
  _provider (ctor_convert U a) = _provider a
  /\ operator_eq (ctor_convert U a) a = true
  /\ _provider (fst (ctor_convert_move U a)) = _provider a
  /\ operator_eq (fst (ctor_convert_move U a)) a = true.
Proof.
  unfold ctor_convert, ctor_convert_move, operator_eq. cbn.
  repeat split; now apply shared_ptr_eqb_eq.
Qed.

End AdapterValues.

(* ===================================================================== *)
(** ** The convenience overloads of allocation *)

Section Convenience.
Context `{Platform} {World : Type} `{!Kernel World}.

(** C6.  [map()] is the canonical batch [map] on the one descriptor with
    offset 0 and length [size()], and returns that descriptor as the batch
    left it. *)
Theorem map_all_refines_batch_map (this : allocation_id) (s : machine World) :
  allocation.map_all this s = map_all_spec this s
  /\ let whole := map_t_range 0 (allocation_size this (world s)) in
     trace (snd (allocation.map_all this s))
       = trace s ++ [ev_batch op_map this [whole]]
     /\ world (snd (allocation.map_all this s))
          = snd (allocation_map this [whole] (world s))
     /\ fst (allocation.map_all this s)
          = hd whole (fst (fst (allocation_map this [whole] (world s)))).
Proof.
  unfold allocation.map_all, map_all_spec, allocation.size, allocation.map,
    allocation.virtual_batch, allocation.dispatch, nt_bind, nt_ret,
    map_t_range.
  cbn [fst snd world trace].
  destruct (allocation_map _ _ _) as [[ms cnt] w']. cbn. auto.
Qed.

(** An iterator-pair overload calls its own batch member once per element,
    on that element alone, and no other virtual member. *)
Lemma range_loop_trace (op : batch_op) (this : allocation_id)
    (c : list map_t) (ret : size_type) (s : machine World) :
  trace (snd (allocation.range_loop op this c ret s))
  = trace s ++ List.map (fun m => ev_batch op this [m]) c.
Proof.
  revert ret s. induction c as [|m rest IH]; intros ret s; cbn.
  - now rewrite List.app_nil_r.
  - unfold nt_bind, allocation.virtual_batch at 1.
    destruct (allocation.dispatch op this [m] (world s)) as [r w'].
    specialize (IH (wrap (ret + snd r))
                  (mk_machine w' (trace s ++ [ev_batch op this [m]]))).
    destruct (allocation.range_loop _ _ _ _ _) as [k s'']. cbn in *.
    rewrite IH, <- List.app_assoc. reflexivity.
Qed.

(** The container overload of [unmap] is the container overload of [map]:
    it never calls the batch [unmap]. *)
Lemma unmap_container_never_unmaps (this : allocation_id) (c : list map_t)
    (s : machine World) :
  allocation.unmap_container this c s = allocation.map_container this c s
  /\ trace (snd (allocation.unmap_container this c s))
     = trace s ++ List.map (fun m => ev_batch op_map this [m]) c
  /\ calls (is_batch op_unmap) (trace (snd (allocation.unmap_container this c s)))
     = calls (is_batch op_unmap) (trace s).
Proof.
  split; [reflexivity|].
  unfold allocation.unmap_container, allocation.map_range.
  rewrite range_loop_trace. split; [reflexivity|].
  rewrite calls_app.
  assert (Hz : calls (is_batch op_unmap)
                 (List.map (fun m => ev_batch op_map this [m]) c) = 0%nat).
  { induction c as [|m rest IH]; [reflexivity|exact IH]. }
  rewrite Hz. lia.
Qed.

(** Its siblings do call their own batch member. *)
Lemma sibling_containers_call_their_member (this : allocation_id)
    (c : list map_t) (s : machine World) :
  trace (snd (allocation.prefault_container this c s))
    = trace s ++ List.map (fun m => ev_batch op_prefault this [m]) c
  /\ trace (snd (allocation.discard_container this c s))
     = trace s ++ List.map (fun m => ev_batch op_discard this [m]) c
  /\ trace (snd (allocation.unmap_range this c s))
     = trace s ++ List.map (fun m => ev_batch op_unmap this [m]) c
  /\ trace (snd (allocation.unmap_vector this c s))
     = trace s ++ [ev_batch op_unmap this c].
Proof.
  unfold allocation.prefault_container, allocation.prefault_range,
    allocation.discard_container, allocation.discard_range,
    allocation.unmap_range, allocation.unmap_vector, allocation.unmap.
  rewrite !range_loop_trace. repeat split.
  unfold allocation.virtual_batch.
  now destruct (allocation.dispatch _ _ _ _).
Qed.

End Convenience.

(* ===================================================================== *)
(** ** The overloads of the batch members against each other *)

Section Overloads.
Context `{Platform} {World : Type} `{!Kernel World}.

Lemma wrap_is_size_t (x : Z) : is_size_t (wrap x).
Proof.
  unfold is_size_t, wrap, SIZE_MAX.
  pose proof (Z.mod_pos_bound x _ pow_size_bits_pos). lia.
Qed.

Lemma wrap_add_l (x y : Z) : wrap (wrap x + y) = wrap (x + y).
Proof. unfold wrap. apply Zplus_mod_idemp_l. Qed.

Lemma wrap_add_r (x y : Z) : wrap (x + wrap y) = wrap (x + y).
Proof. unfold wrap. apply Zplus_mod_idemp_r. Qed.

Lemma range_loop_length (op : batch_op) (this : allocation_id)
    (c : list map_t) (ret : size_type) (s : machine World) :
  List.length (fst (fst (allocation.range_loop op this c ret s)))
  = List.length c.
Proof.
  revert ret s. induction c as [|m rest IH]; intros ret s; cbn; [reflexivity|].
  unfold nt_bind.
  destruct (allocation.virtual_batch op this [m] s) as [r s1].
  specialize (IH (wrap (ret + snd r)) s1).
  destruct (allocation.range_loop _ _ _ _ _) as [k s2]. cbn in *.
  now rewrite IH.
Qed.

Lemma range_loop_count (op : batch_op) (this : allocation_id)
    (c : list map_t) (ret : size_type) (s : machine World) :
  is_size_t ret ->
  is_size_t (snd (fst (allocation.range_loop op this c ret s))).
Proof.
  revert ret s. induction c as [|m rest IH]; intros ret s Hret; cbn;
    [exact Hret|].
  unfold nt_bind.
  destruct (allocation.virtual_batch op this [m] s) as [r s1].
  specialize (IH (wrap (ret + snd r)) s1 (wrap_is_size_t _)).
  destruct (allocation.range_loop _ _ _ _ _) as [k s2]. exact IH.
Qed.

(** Starting the running count at [ret] instead of 0 adds [ret] to the
    result, modulo 2^w, and changes nothing else. *)
Lemma range_loop_shift (op : batch_op) (this : allocation_id)
    (c : list map_t) (ret : size_type) (s : machine World) :
  is_size_t ret ->
  allocation.range_loop op this c ret s
  = ((fst (fst (allocation.range_loop op this c 0 s)),
      wrap (ret + snd (fst (allocation.range_loop op this c 0 s)))),
     snd (allocation.range_loop op this c 0 s)).
Proof.
  revert ret s. induction c as [|m rest IH]; intros ret s Hret; cbn.
  - unfold nt_ret. cbn. rewrite Z.add_0_r, wrap_small; [reflexivity|exact Hret].
  - unfold nt_bind.
    destruct (allocation.virtual_batch op this [m] s) as [r s1].
    rewrite (IH (wrap (ret + snd r)) s1 (wrap_is_size_t _)).
    rewrite (IH (wrap (0 + snd r)) s1 (wrap_is_size_t _)).
    destruct (allocation.range_loop op this rest 0 s1) as [k s2]. cbn.
    unfold nt_ret. do 2 f_equal.
    rewrite !wrap_add_l, wrap_add_r. f_equal. lia.
Qed.

Lemma range_loop_app (op : batch_op) (this : allocation_id)
    (c1 c2 : list map_t) (ret : size_type) (s : machine World) :
  allocation.range_loop op this (c1 ++ c2) ret s
  = let r1 := allocation.range_loop op this c1 ret s in
    let r2 := allocation.range_loop op this c2 (snd (fst r1)) (snd r1) in
    ((fst (fst r1) ++ fst (fst r2), snd (fst r2)), snd r2).
Proof.
  revert ret s. induction c1 as [|m rest IH]; intros ret s; cbn.
  - unfold nt_ret. cbn.
    now destruct (allocation.range_loop op this c2 ret s) as [[l n] s'].
  - unfold nt_bind.
    destruct (allocation.virtual_batch op this [m] s) as [r s1].
    rewrite IH. cbn.
    destruct (allocation.range_loop op this rest _ s1) as [[l1 n1] s2]. cbn.
    now destruct (allocation.range_loop op this c2 n1 s2) as [[l2 n2] s3].
Qed.

(** X1.  An iterator-pair overload ([map], [unmap], [prefault], [discard]
    over [begin, end)) calls its own batch member once per element, in
    order, each time on that element alone; it calls no other batch member;
    the sequence keeps its length; and the count it returns is a
    [size_type]. *)
Theorem iterator_pair_calls_once_per_element
    (op : batch_op) (this : allocation_id) (c : list map_t)
    (s : machine World) :
  let r := allocation.range_loop op this c 0 s in
  trace (snd r) = trace s ++ List.map (fun m => ev_batch op this [m]) c
  /\ calls (is_batch op) (trace (snd r))
     = (calls (is_batch op) (trace s) + List.length c)%nat
  /\ (forall op', batch_op_eqb op' op = false ->
        calls (is_batch op') (trace (snd r)) = calls (is_batch op') (trace s))
  /\ List.length (fst (fst r)) = List.length c
  /\ is_size_t (snd (fst r)).
Proof.
  cbv zeta. rewrite range_loop_trace, range_loop_length.
  assert (Hcount : forall op',
            calls (is_batch op')
              (List.map (fun m => ev_batch op this [m]) c)
            = if batch_op_eqb op' op then List.length c else 0%nat).
  { intros op'. unfold calls.
    induction c as [|m rest IH]; cbn; [now destruct (batch_op_eqb op' op)|].
    destruct (batch_op_eqb op' op); cbn; [now rewrite IH|exact IH]. }
  split; [reflexivity|split; [|split; [|split]]].
  - rewrite calls_app, Hcount. now destruct op.
  - intros op' Hne. rewrite calls_app, Hcount, Hne. lia.
  - reflexivity.
  - apply range_loop_count. unfold is_size_t, SIZE_MAX.
    pose proof pow_size_bits_pos. lia.
Qed.

(** X2.  Running an iterator-pair overload over a sequence in two
    consecutive parts gives the descriptors of the single run on the whole
    sequence, the same final state, and counts that add up modulo 2^w. *)
Theorem range_over_concatenation
    (op : batch_op) (this : allocation_id) (c1 c2 : list map_t)
    (s : machine World) :
  let r1 := allocation.range_loop op this c1 0 s in
  let r2 := allocation.range_loop op this c2 0 (snd r1) in
  let r := allocation.range_loop op this (c1 ++ c2) 0 s in
  fst (fst r) = fst (fst r1) ++ fst (fst r2)
  /\ snd (fst r) = wrap (snd (fst r1) + snd (fst r2))
  /\ snd r = snd r2.
Proof.
  cbv zeta. rewrite range_loop_app. cbv zeta. cbn [fst snd].
  assert (H0 : is_size_t 0).
  { unfold is_size_t, SIZE_MAX. pose proof pow_size_bits_pos. lia. }
  rewrite (range_loop_shift op this c2
             (snd (fst (allocation.range_loop op this c1 0 s))))
    by (apply range_loop_count; exact H0).
  cbn [fst snd]. repeat split.
Qed.

(** On a provider that runs a batch as one call per descriptor, the
    iterator-pair loop computes what one batch call on the whole sequence
    computes, as long as the count cannot wrap. *)
Lemma range_loop_sequential (op : batch_op) (this : allocation_id)
    (c : list map_t) (ret : size_type) (s : machine World) :
  sequential_batch op this ->
  0 <= ret -> ret + Z.of_nat (List.length c) <= SIZE_MAX ->
  let b := allocation.dispatch op this c (world s) in
  fst (allocation.range_loop op this c ret s)
    = (fst (fst b), ret + snd (fst b))
  /\ world (snd (allocation.range_loop op this c ret s)) = snd b
  /\ 0 <= snd (fst b) <= Z.of_nat (List.length c).
Proof.
  intros (Hnil & Hcons & Hone). revert ret s.
  induction c as [|m rest IH]; intros ret s Hret Hfit; cbv zeta.
  - rewrite Hnil. cbn. rewrite Z.add_0_r. repeat split; lia.
  - rewrite Hcons.
    assert (Hstep :
              allocation.range_loop op this (m :: rest) ret s
              = let (r, s1) := allocation.virtual_batch op this [m] s in
                let (k, s2) :=
                  allocation.range_loop op this rest (wrap (ret + snd r)) s1 in
                ((hd m (fst r) :: fst k, snd k), s2)) by reflexivity.
    rewrite Hstep. clear Hstep. unfold allocation.virtual_batch.
    pose proof (Hone m (world s)) as Hcnt.
    destruct (allocation.dispatch op this [m] (world s)) as [r1 w1].
    cbn [fst snd] in Hcnt.
    assert (Hlen : Z.of_nat (List.length (m :: rest))
                   = 1 + Z.of_nat (List.length rest))
      by (cbn [List.length]; lia).
    rewrite Hlen in Hfit.
    assert (Hw : wrap (ret + snd r1) = ret + snd r1)
      by (apply wrap_small; lia).
    rewrite Hw.
    specialize (IH (ret + snd r1)
                  (mk_machine w1 (trace s ++ [ev_batch op this [m]]))).
    cbv zeta in IH. cbn [world] in IH.
    destruct IH as (IHr & IHw & IHc); [lia|lia|].
    destruct (allocation.range_loop op this rest (ret + snd r1) _)
      as [k s2].
    destruct (allocation.dispatch op this rest w1) as [r2 w2].
    cbn [fst snd] in *. subst k. cbn [fst snd].
    rewrite Hlen. repeat split; [f_equal; lia|exact IHw|lia|lia].
Qed.

(** X3.  On a provider that runs its batch member as one call per
    descriptor, the iterator-pair overload over a sequence and the
    canonical batch call on that sequence (which is what the vector
    overload makes) leave the same descriptors, the same count and the
    same provider state, provided the length of the sequence is a
    [size_type]. *)
Theorem range_matches_batch_on_sequential_provider
    (op : batch_op) (this : allocation_id) (c : list map_t)
    (s : machine World) :
  sequential_batch op this ->
  Z.of_nat (List.length c) <= SIZE_MAX ->
  fst (allocation.range_loop op this c 0 s)
    = fst (allocation.virtual_batch op this c s)
  /\ world (snd (allocation.range_loop op this c 0 s))
     = world (snd (allocation.virtual_batch op this c s))
  /\ 0 <= snd (fst (allocation.range_loop op this c 0 s))
       <= Z.of_nat (List.length c).
Proof.
  intros Hseq Hlen.
  destruct (range_loop_sequential op this c 0 s Hseq) as (Hr & Hw & Hc);
    [lia|lia|].
  unfold allocation.virtual_batch.
  destruct (allocation.dispatch op this c (world s)) as [[l n] w] eqn:Hd.
  cbn [fst snd world] in *. rewrite Hr, Hw. cbn [fst snd].
  repeat split; lia.
Qed.

Lemma one_agrees_with_range (op : batch_op) (this : allocation_id)
    (m : map_t) (s : machine World)
    (one : allocation_id -> map_t -> NoThrow (machine World) (map_t * bool)) :
  (forall s', one this m s'
     = (r <~ allocation.virtual_batch op this [m] ;;
        nt_ret (hd m (fst r), 1 =? snd r))%nothrow s') ->
  is_size_t (snd (fst (allocation.dispatch op this [m] (world s)))) ->
  agrees_on m s (one this)
    (fun c => allocation.range_loop op this c 0).
Proof.
  intros Hone Hcnt. unfold agrees_on. rewrite Hone.
  cbn [allocation.range_loop]. unfold nt_bind, nt_ret.
  unfold allocation.virtual_batch.
  destruct (allocation.dispatch op this [m] (world s)) as [[l n] w].
  cbn [fst snd] in *. rewrite Z.add_0_l, (wrap_small n Hcnt).
  repeat split. apply Z.eqb_sym.
Qed.

(** X4.  A single descriptor overload has the effect of the iterator-pair
    overload of the same member on a one-element range: the same
    descriptor afterwards, the same state and call log, and it returns
    [true] exactly when that range overload returns 1.  (The count a batch
    member returns is a [size_type].) *)
Theorem single_descriptor_matches_one_element_range
    (this : allocation_id) (m : map_t) (s : machine World) :
  (forall op,
     is_size_t (snd (fst (allocation.dispatch op this [m] (world s))))) ->
  agrees_on m s (allocation.map_one this) (allocation.map_range this)
  /\ agrees_on m s (allocation.unmap_one this) (allocation.unmap_range this)
  /\ agrees_on m s (allocation.prefault_one this)
       (allocation.prefault_range this)
  /\ agrees_on m s (allocation.discard_one this)
       (allocation.discard_range this).
Proof.
  intros Hcnt. repeat split;
    first [ apply (one_agrees_with_range op_map this m s
                     (fun a => allocation.map_one a))
          | apply (one_agrees_with_range op_unmap this m s
                     (fun a => allocation.unmap_one a))
          | apply (one_agrees_with_range op_prefault this m s
                     (fun a => allocation.prefault_one a))
          | apply (one_agrees_with_range op_discard this m s
                     (fun a => allocation.discard_one a)) ];
    solve [ reflexivity | apply Hcnt ].
Qed.

Lemma range_loop_calls (op op' : batch_op) (this : allocation_id)
    (c : list map_t) (ret : size_type) (s : machine World) :
  calls (is_batch op') (trace (snd (allocation.range_loop op this c ret s)))
  = (calls (is_batch op') (trace s)
     + if batch_op_eqb op' op then List.length c else 0)%nat.
Proof.
  rewrite range_loop_trace, calls_app. f_equal. unfold calls.
  induction c as [|m rest IH]; cbn; [now destruct (batch_op_eqb op' op)|].
  destruct (batch_op_eqb op' op); cbn; [now rewrite IH|exact IH].
Qed.

(** X5.  The container overload of [unmap], on every container and from
    every state, has the effect of the container overload of [map]: one
    call of the batch [map] per element and no call of [unmap].  The
    iterator-pair overload of [unmap] over the same elements calls the
    batch [unmap] once per element and never [map]. *)
Theorem unmap_container_has_effect_of_map
    (this : allocation_id) (c : list map_t) (s : machine World) :
  let by_cont := allocation.unmap_container this c s in
  let by_range := allocation.unmap_range this c s in
  by_cont = allocation.map_container this c s
  /\ calls (is_batch op_map) (trace (snd by_cont))
     = (calls (is_batch op_map) (trace s) + List.length c)%nat
  /\ calls (is_batch op_unmap) (trace (snd by_cont))
     = calls (is_batch op_unmap) (trace s)
  /\ calls (is_batch op_unmap) (trace (snd by_range))
     = (calls (is_batch op_unmap) (trace s) + List.length c)%nat
  /\ calls (is_batch op_map) (trace (snd by_range))
     = calls (is_batch op_map) (trace s).
Proof.
  cbv zeta.
  unfold allocation.unmap_container, allocation.map_container,
    allocation.map_range, allocation.unmap_range.
  rewrite !range_loop_calls. cbn. repeat split; lia.
Qed.

End Overloads.

(* ===================================================================== *)
(** ** More on allocator<T> *)

Section AdapterOutcomes.
Context `{Platform} {World : Type} `{!Kernel World}.
Import allocator_members.

Local Ltac run_calls :=
  unfold allocate, deallocate, th_bind, th_ret, throw, get_this, call,
    provider.allocate, provider.allocation, allocation.map_all,
    allocation.unmap_one, allocation.map, allocation.unmap,
    allocation.virtual_batch, allocation.size, allocation.dispatch,
    nt_bind, nt_ret; cbn [fst snd self mach world trace].

Local Ltac count_new :=
  unfold new_calls; cbn [fst snd self mach world trace];
  rewrite ?List.length_app; cbn [List.length]; lia.

(** X6.  A default constructed allocator, and the source of either move
    constructor after the move, hold no provider: on them [allocate] and
    [deallocate] throw [invalid_argument("Unset provider")] for all
    arguments, make no virtual call and change nothing. *)
Theorem unbound_allocators_refuse_all (T U : elem_type) (a : allocator T) :
  refuses_all (ctor_default : allocator T)
  /\ refuses_all (snd (ctor_move a))
  /\ refuses_all (snd (ctor_convert_move U a)).
Proof.
  repeat split; run_calls; reflexivity.
Qed.


(** X8.  The outcomes of [deallocate].  It never throws [bad_alloc].  It
    returns only after the lookup and the unmap, two virtual calls.
    [invalid_argument] is either the unbound check, with no virtual call,
    or the lookup miss, after the lookup alone and with no unmap.  A
    [system_error] carries a set error code and the text of the unmap
    failure, and comes after both calls. *)
Theorem deallocate_outcome_cases
    (T : elem_type) (f : frame T World) (p : pointer) (n : size_type) :
  let r := deallocate p n f in
  match fst r with
  | Returns _ =>
      _provider (self f) <> None
      /\ new_calls (mach f) (mach (snd r)) = 2%nat
  | Throws (invalid_argument what) =>
      (what = "Unset provider"%string
       /\ _provider (self f) = None /\ snd r = f)
      \/ (what = "Address not found"%string
          /\ _provider (self f) <> None
          /\ new_calls (mach f) (mach (snd r)) = 1%nat
          /\ calls (is_batch op_unmap) (trace (mach (snd r)))
             = calls (is_batch op_unmap) (trace (mach f)))
  | Throws bad_alloc => False
  | Throws (system_error ec what) =>
      ec_set ec = true
      /\ what = Some "Failed to unmap allocation"%string
      /\ _provider (self f) <> None
      /\ new_calls (mach f) (mach (snd r)) = 2%nat
  end.
Proof.
  cbv zeta. run_calls.
  destruct (_provider (self f)) as [prov|] eqn:Hprov.
  2:{ cbn. left. destruct f. repeat split. }
  destruct (provider_allocation _ _ _ _) as [[a m] w1].
  cbn [fst snd self mach world trace].
  destruct a as [al|].
  2:{ cbn [fst snd]. right. repeat split; try discriminate.
      - count_new.
      - cbn [mach trace]. rewrite calls_app. cbn. lia. }
  destruct (allocation_unmap _ _ _) as [[ms cnt] w2].
  cbn [fst snd self mach world trace].
  destruct (ec_set (m_ec (hd m ms))) eqn:Hec; cbn [fst snd].
  - repeat split; try discriminate; try exact Hec. count_new.
  - split; [discriminate|count_new].
Qed.


End AdapterOutcomes.

Section AdapterAlgebra.
Context `{Platform} {World : Type} `{!Kernel World}.
Import allocator_members.

(** X10.  [operator==] on allocators is an equivalence across element
    types: reflexive, symmetric and transitive; [operator!=] of an
    allocator with itself is [false]. *)
Theorem operator_eq_equivalence
    (A B C : elem_type) (a : allocator A) (b : allocator B) (c : allocator C) :
  operator_eq a a = true
  /\ operator_ne a a = false
  /\ operator_eq a b = operator_eq b a
  /\ implb (operator_eq a b && operator_eq b c) (operator_eq a c) = true.
Proof.
  assert (Hrefl : forall x : provider_ptr, shared_ptr_eqb x x = true)
    by (intros x; now apply shared_ptr_eqb_eq).
  unfold operator_eq, operator_ne, shared_ptr_neb.
  split; [apply Hrefl|split; [now rewrite Hrefl|split]].
  - destruct (_provider a) as [x|], (_provider b) as [y|]; cbn;
      try reflexivity. apply Pos.eqb_sym.
  - destruct (shared_ptr_eqb (_provider a) (_provider b)) eqn:Eab;
      [|reflexivity].
    destruct (shared_ptr_eqb (_provider b) (_provider c)) eqn:Ebc;
      [|reflexivity].
    apply shared_ptr_eqb_eq in Eab, Ebc. cbn.
    rewrite Eab, Ebc. now rewrite Hrefl.
Qed.

(** X11.  Allocators that compare equal are interchangeable.  From the
    same state, [deallocate(p, _)] through either gives the same outcome
    and leaves the same provider state and call log, whatever the two
    element types and size arguments; so does [allocate(n)] when the two
    element types have the same size. *)
Theorem equal_allocators_interchangeable
    (A B : elem_type) (a : allocator A) (b : allocator B)
    (s : machine World) (p : pointer) (n1 n2 n : size_type)
    (hint1 hint2 : pointer) :
  operator_eq a b = true ->
  (fst (deallocate p n1 (mk_frame a s)) = fst (deallocate p n2 (mk_frame b s))
   /\ mach (snd (deallocate p n1 (mk_frame a s)))
      = mach (snd (deallocate p n2 (mk_frame b s))))
  /\ (sizeof A = sizeof B ->
      fst (allocate n hint1 (mk_frame a s))
        = fst (allocate n hint2 (mk_frame b s))
      /\ mach (snd (allocate n hint1 (mk_frame a s)))
         = mach (snd (allocate n hint2 (mk_frame b s)))).
Proof.
  intros Heq. apply shared_ptr_eqb_eq in Heq.
  split.
  - unfold deallocate, th_bind, th_ret, throw, get_this, call,
      provider.allocation, allocation.unmap_one, allocation.unmap,
      allocation.virtual_batch, allocation.dispatch, nt_bind, nt_ret.
    cbn [fst snd self mach world trace]. rewrite Heq.
    destruct (_provider b) as [prov|]; [|now split].
    destruct (provider_allocation _ _ _ _) as [[al m] w1].
    cbn [fst snd self mach world trace].
    destruct al as [al|]; [|now split].
    destruct (allocation_unmap _ _ _) as [[ms cnt] w2].
    cbn [fst snd self mach world trace].
    now destruct (ec_set _).
  - intros Hsz.
    unfold allocate, th_bind, th_ret, throw, get_this, call,
      provider.allocate, allocation.map_all, allocation.map,
      allocation.virtual_batch, allocation.size, allocation.dispatch,
      nt_bind, nt_ret, max_size.
    cbn [fst snd self mach world trace]. rewrite Heq, Hsz.
    destruct (_provider b) as [prov|]; [|now split].
    destruct (n >? wrap (-1) / sizeof B); [now split|].
    destruct (provider_allocate _ _ _ _) as [[ec al] w1].
    cbn [fst snd self mach world trace].
    destruct (ec_set ec); [now split|].
    destruct al as [al|]; [|now split].
    destruct (allocation_map _ _ _) as [[ms cnt] w2].
    cbn [fst snd self mach world trace].
    now destruct (m_addr _ =? nullptr).
Qed.

(** X12.  Construction.  Two default constructed allocators compare
    equal, whatever their element types.  A copy compares equal to its
    source.  After a move construction the new allocator compares equal to
    the source as it was, the source compares equal to a default
    constructed allocator, and the source still compares equal to the new
    allocator exactly when it held no provider to begin with. *)
Theorem copy_and_move_construction (T U : elem_type) (a : allocator T) :
  operator_eq (ctor_default : allocator T) (ctor_default : allocator U) = true
  /\ operator_eq (ctor_copy a) a = true
  /\ operator_eq (fst (ctor_move a)) a = true
  /\ operator_eq (snd (ctor_move a)) (ctor_default : allocator U) = true
  /\ operator_eq (snd (ctor_convert_move U a)) (ctor_default : allocator U)
     = true
  /\ (operator_eq (snd (ctor_move a)) (fst (ctor_move a)) = true
      <-> _provider a = None)
  /\ (operator_eq (snd (ctor_convert_move U a)) (fst (ctor_convert_move U a))
        = true
      <-> _provider a = None).
Proof.
  unfold operator_eq, ctor_default, ctor_copy, ctor_move, ctor_convert_move.
  cbn [fst snd _provider].
  destruct (_provider a) as [x|]; cbn; rewrite ?Pos.eqb_refl;
    repeat split; congruence.
Qed.

(** X13.  Bounds of [max_size()], for an element type of at least one
    byte: it is a [size_type]; [max_size()] elements fit in [size_type] and
    less than one element's worth of bytes is left over; for one-byte
    elements it is the largest [size_type]; and a larger element type never
    has a larger [max_size()]. *)
Theorem max_size_bounds (T : elem_type) (a : allocator T) :
  0 < sizeof T ->
  is_size_t (max_size a)
  /\ SIZE_MAX - sizeof T < max_size a * sizeof T <= SIZE_MAX
  /\ (sizeof T = 1 -> max_size a = SIZE_MAX)
  /\ (forall (U : elem_type) (b : allocator U),
        sizeof T <= sizeof U -> max_size b <= max_size a).
Proof.
  intros Hs. rewrite max_size_unfold.
  assert (HM : 0 <= SIZE_MAX).
  { unfold SIZE_MAX. pose proof pow_size_bits_pos. lia. }
  pose proof (Z.div_mod SIZE_MAX (sizeof T) ltac:(lia)) as Hdm.
  pose proof (Z.mod_pos_bound SIZE_MAX (sizeof T) Hs) as Hmod.
  assert (Hq : 0 <= SIZE_MAX / sizeof T) by (apply Z.div_pos; lia).
  split; [|split; [|split]].
  - unfold is_size_t. split; [exact Hq|].
    apply Z.div_le_upper_bound; [exact Hs|]. nia.
  - nia.
  - intros H1. rewrite H1. apply Z.div_1_r.
  - intros U b Hle. rewrite max_size_unfold.
    apply Z.div_le_compat_l; lia.
Qed.

End AdapterAlgebra.

(* ===================================================================== *)
(** ** Callers of allocate and deallocate *)

Section Callers.
Context `{Platform} {World : Type} `{!Kernel World}.
Import allocator_members.

Lemma accounted_nil (T : elem_type) (f : frame T World) : accounted f [] f.
Proof. unfold accounted. cbn. repeat split; lia. Qed.

Lemma accounted_app (T : elem_type) (f f1 f2 : frame T World)
    (h1 h2 : list request) :
  accounted f h1 f1 -> accounted f1 h2 f2 -> accounted f (h1 ++ h2) f2.
Proof.
  unfold accounted. cbv zeta.
  intros (Hs1 & Hu1 & Hb1) (Hs2 & Hu2 & Hb2).
  rewrite Hs1 in Hs2, Hu2, Hb2.
  rewrite !List.filter_app, !List.length_app.
  split; [congruence|split].
  - intros Hu. rewrite (Hu2 Hu). now apply Hu1.
  - intros Hb. specialize (Hb1 Hb). specialize (Hb2 Hb). lia.
Qed.

Local Ltac settle :=
  repeat split; intros; first [lia | congruence | reflexivity].

Lemma allocate_accounted (T : elem_type) (f : frame T World)
    (n : size_type) (hint : pointer) :
  accounted f [req_allocate n hint] (snd (allocate n hint f)).
Proof.
  unfold accounted. cbv zeta. cbn [List.filter passes_size_check is_deallocate].
  unfold allocate, th_bind, th_ret, throw, get_this, call,
    provider.allocate, allocation.map_all, allocation.map,
    allocation.virtual_batch, allocation.size, allocation.dispatch,
    nt_bind, nt_ret.
  cbn [fst snd self mach world trace].
  destruct (_provider (self f)) as [prov|].
  2:{ cbn. settle. }
  destruct (n >? max_size (self f)).
  { cbn. settle. }
  destruct (provider_allocate _ _ _ _) as [[ec al] w1].
  cbn [fst snd self mach world trace negb List.length].
  destruct (ec_set ec).
  { cbn [snd self mach trace]. rewrite !calls_app. cbn.
    settle. }
  destruct al as [al|].
  2:{ cbn [snd self mach trace]. rewrite !calls_app. cbn.
      settle. }
  destruct (allocation_map _ _ _) as [[ms cnt] w2].
  cbn [fst snd self mach world trace].
  destruct (m_addr _ =? nullptr); cbn [snd self mach trace];
    rewrite !calls_app; cbn; settle.
Qed.

Lemma deallocate_accounted (T : elem_type) (f : frame T World)
    (p : pointer) (n : size_type) :
  accounted f [req_deallocate p n] (snd (deallocate p n f)).
Proof.
  unfold accounted. cbv zeta. cbn [List.filter passes_size_check is_deallocate].
  unfold deallocate, th_bind, th_ret, throw, get_this, call,
    provider.allocation, allocation.unmap_one, allocation.unmap,
    allocation.virtual_batch, allocation.dispatch, nt_bind, nt_ret.
  cbn [fst snd self mach world trace].
  destruct (_provider (self f)) as [prov|].
  2:{ cbn. settle. }
  destruct (provider_allocation _ _ _ _) as [[al m] w1].
  cbn [fst snd self mach world trace List.length].
  destruct al as [al|].
  2:{ cbn [snd self mach trace]. rewrite !calls_app. cbn.
      settle. }
  destruct (allocation_unmap _ _ _) as [[ms cnt] w2].
  cbn [fst snd self mach world trace].
  destruct (ec_set _); cbn [snd self mach trace];
    rewrite !calls_app; cbn; settle.
Qed.

(** X14.  Whatever a caller does with one allocator object (any finite
    program of [allocate] and [deallocate] calls that catches what they
    throw and may choose each next call from the outcomes so far), the
    allocator keeps its provider binding and holds nothing back: on an
    unbound allocator no virtual member is ever called; on a bound one
    every [allocate] that passes the size check costs exactly one
    [provider::allocate] and at most one [map], every [deallocate] exactly
    one reverse lookup and at most one [unmap], and [prefault] and
    [discard] are never called. *)
Theorem caller_runs_are_accounted
    (T : elem_type) (c : client) (f : frame T World) :
  accounted f (fst (run_client c f)) (snd (run_client c f)).
Proof.
  revert f. induction c as [|n hint k IH|p n k IH]; intros f.
  - apply accounted_nil.
  - cbn [run_client].
    pose proof (allocate_accounted T f n hint) as Hstep.
    destruct (allocate n hint f) as [o f1]. cbn [snd] in Hstep.
    specialize (IH o f1).
    destruct (run_client (k o) f1) as [h f2]. cbn [fst snd] in *.
    exact (accounted_app T f f1 f2 [req_allocate n hint] h Hstep IH).
  - cbn [run_client].
    pose proof (deallocate_accounted T f p n) as Hstep.
    destruct (deallocate p n f) as [o f1]. cbn [snd] in Hstep.
    specialize (IH o f1).
    destruct (run_client (k o) f1) as [h f2]. cbn [fst snd] in *.
    exact (accounted_app T f f1 f2 [req_deallocate p n] h Hstep IH).
Qed.

End Callers.

(* ===================================================================== *)
(** ** Runs on the concrete provider *)

#[local] Existing Instance Mock.LP64.
#[local] Existing Instance Mock.kernel.


Import allocator_members.

(** C3, at a failing input.  On an allocation whose 800 bytes are mapped at
    65536, the canonical batch [unmap] of that range calls the provider's
    [unmap] and the address no longer resolves afterwards; the container
    overload of [unmap] on the same one-descriptor container calls the
    batch [map] instead, never [unmap], and the address still resolves.
    On an allocation that was never mapped, the canonical batch [unmap]
    reports 0 successes and sets the descriptor's error, while the container
    overload reports 1 and leaves the range newly mapped. *)
Theorem unmap_container_runs_map :
  let a := 1%positive in
  let by_batch := allocation.unmap a [Mock.mapped_800] (mach Mock.f1) in
  let by_cont :=
    allocation.unmap_container a [Mock.mapped_800] (mach Mock.f1) in
  let fresh_batch := allocation.unmap a [map_t_range 0 800] Mock.s_reserved in
  let fresh_cont :=
    allocation.unmap_container a [map_t_range 0 800] Mock.s_reserved in
  Mock.resolves 65536 (mach Mock.f1) = Some a
  /\ trace (snd by_batch)
     = trace (mach Mock.f1) ++ [ev_batch op_unmap a [Mock.mapped_800]]
  /\ Mock.resolves 65536 (snd by_batch) = None
  /\ trace (snd by_cont)
     = trace (mach Mock.f1) ++ [ev_batch op_map a [Mock.mapped_800]]
  /\ Mock.resolves 65536 (snd by_cont) = Some a
  /\ fst fresh_batch = ([mk_map_t nullptr 0 800 Mock.EINVAL], 0)
  /\ Mock.resolves 65536 (snd fresh_batch) = None
  /\ fst fresh_cont = ([mk_map_t 65536 0 800 no_error], 1)
  /\ Mock.resolves 65536 (snd fresh_cont) = Some a.
Proof. vm_compute. repeat split. Qed.

(** C4 as stated fails on an unbound allocator: with 8-byte elements,
    [2^61] exceeds [max_size()], yet [allocate(2^61)] throws
    [invalid_argument("Unset provider")], not the size-overflow
    [bad_alloc]. *)
Lemma allocate_overflow_unbound_is_not_bad_alloc :
  2 ^ 61 > max_size (self Mock.f_unbound)
  /\ is_size_t (2 ^ 61)
  /\ fst (allocate (2 ^ 61) nullptr Mock.f_unbound)
     = Throws (invalid_argument "Unset provider")
  /\ fst (allocate (2 ^ 61) nullptr Mock.f_unbound) <> Throws bad_alloc.
Proof.
  vm_compute. repeat split; discriminate.
Qed.

(** *** The theorems above at concrete inputs *)

Lemma allocate_calls_provider_then_maps_witness :
  (0 < sizeof Mock.T8 /\ 0 <= 100 <= max_size (self Mock.f0))
  /\ fst (allocate 100 nullptr Mock.f0) = Returns 65536
  /\ trace (mach (snd (allocate 100 nullptr Mock.f0)))
     = [ev_provider_allocate 1%positive 800;
        ev_batch op_map 1%positive [map_t_range 0 800]]
  /\ calls is_provider_allocate (trace (mach (snd (allocate 100 nullptr Mock.f0))))
     = 1%nat
  /\ calls (is_batch op_map) (trace (mach (snd (allocate 100 nullptr Mock.f0))))
     = 1%nat.
Proof.
  assert (Hs : 0 < sizeof Mock.T8) by reflexivity.
  assert (Hn : 0 <= 100 <= max_size (self Mock.f0))
    by (vm_compute; split; discriminate).
  pose proof
    (allocate_calls_provider_then_maps Mock.T8 Mock.f0 1%positive 100 nullptr
       no_error (Some 1%positive)
       (snd (provider_allocate 1%positive no_error 800 (world (mach Mock.f0))))
       Hs eq_refl Hn eq_refl) as Hthm.
  cbv zeta in Hthm. destruct Hthm as (Hone & _ & Hok).
  assert (Hbatch :
            allocation_map 1%positive
              [map_t_range 0
                 (allocation_size 1%positive
                    (snd (provider_allocate 1%positive no_error 800
                            (world (mach Mock.f0)))))]
              (snd (provider_allocate 1%positive no_error 800
                      (world (mach Mock.f0))))
            = (([mk_map_t 65536 0 800 no_error], 1),
               snd (allocation_map 1%positive [map_t_range 0 800]
                      (snd (provider_allocate 1%positive no_error 800
                              (world (mach Mock.f0)))))))
    by (vm_compute; reflexivity).
  destruct (Hok 1%positive _ _ _ eq_refl eq_refl Hbatch) as [Hrun Hmap].
  split; [exact (conj Hs Hn)|].
  rewrite Hone, Hmap, Hrun. vm_compute. repeat split.
Defined.

Lemma deallocate_looks_up_then_unmaps_witness :
  _provider (self Mock.f1) = Some 1%positive
  /\ fst (deallocate 65536 100 Mock.f1) = Returns tt
  /\ calls is_provider_allocation
       (trace (mach (snd (deallocate 65536 100 Mock.f1)))) = 1%nat
  /\ calls (is_batch op_unmap)
       (trace (mach (snd (deallocate 65536 100 Mock.f1)))) = 1%nat
  /\ fst (deallocate 4242 1 Mock.f1)
     = Throws (invalid_argument "Address not found")
  /\ calls (is_batch op_unmap)
       (trace (mach (snd (deallocate 4242 1 Mock.f1)))) = 0%nat.
Proof.
  assert (Hbound : _provider (self Mock.f1) = Some 1%positive)
    by (vm_compute; reflexivity).
  assert (Hfound :
            provider_allocation 1%positive 65536 map_t_default
              (world (mach Mock.f1))
            = ((Some 1%positive, Mock.mapped_800), world (mach Mock.f1)))
    by (vm_compute; reflexivity).
  assert (Hlost :
            provider_allocation 1%positive 4242 map_t_default
              (world (mach Mock.f1))
            = ((None, map_t_default), world (mach Mock.f1)))
    by (vm_compute; reflexivity).
  assert (Hbatch :
            allocation_unmap 1%positive [Mock.mapped_800] (world (mach Mock.f1))
            = (([Mock.mapped_800], 1),
               snd (allocation_unmap 1%positive [Mock.mapped_800]
                      (world (mach Mock.f1)))))
    by (vm_compute; reflexivity).
  pose proof
    (deallocate_looks_up_then_unmaps Mock.T8 Mock.f1 1%positive 65536 100
       (Some 1%positive) Mock.mapped_800 (world (mach Mock.f1))
       Hbound Hfound) as Hhit.
  pose proof
    (deallocate_looks_up_then_unmaps Mock.T8 Mock.f1 1%positive 4242 1
       None map_t_default (world (mach Mock.f1))
       Hbound Hlost) as Hmiss.
  cbv zeta in Hhit, Hmiss.
  destruct Hhit as (Hone & _ & Hok).
  destruct Hmiss as (_ & Hnone & _).
  destruct (Hok 1%positive _ _ _ eq_refl Hbatch) as [Hrun Hunmap].
  destruct (Hnone eq_refl) as [Hthrow Hsame].
  split; [exact Hbound|].
  rewrite Hone, Hunmap, Hsame, Hrun, Hthrow. vm_compute. repeat split.
Defined.

Lemma allocate_overflow_never_contacts_provider_witness :
  2 ^ 61 > max_size (self Mock.f0)
  /\ allocate (2 ^ 61) nullptr Mock.f0 = (Throws bad_alloc, Mock.f0)
  /\ allocate (2 ^ 61) nullptr Mock.f_unbound
     = (Throws (invalid_argument "Unset provider"), Mock.f_unbound).
Proof.
  assert (Hgt : 2 ^ 61 > max_size (self Mock.f0)) by (vm_compute; reflexivity).
  assert (Hgt' : 2 ^ 61 > max_size (self Mock.f_unbound))
    by (vm_compute; reflexivity).
  split; [exact Hgt|split].
  - exact (proj1 (allocate_overflow_never_contacts_provider
                    Mock.T8 Mock.f0 (2 ^ 61) nullptr Hgt) 1%positive eq_refl).
  - exact (proj1 (proj2 (allocate_overflow_never_contacts_provider
                           Mock.T8 Mock.f_unbound (2 ^ 61) nullptr Hgt'))
             eq_refl).
Defined.

Lemma failure_leaves_provider_binding_witness :
  fst (allocate 1 nullptr Mock.f_refusing)
    = Throws (system_error Mock.ENOMEM None)
  /\ _provider (self (snd (allocate 1 nullptr Mock.f_refusing)))
     = Some Mock.the_provider
  /\ fst (deallocate 4242 1 Mock.f1)
     = Throws (invalid_argument "Address not found")
  /\ _provider (self (snd (deallocate 4242 1 Mock.f1)))
     = Some Mock.the_provider.
Proof.
  assert (Ha : allocate 1 nullptr Mock.f_refusing
               = (Throws (system_error Mock.ENOMEM None),
                  snd (allocate 1 nullptr Mock.f_refusing)))
    by (vm_compute; reflexivity).
  assert (Hd : deallocate 4242 1 Mock.f1
               = (Throws (invalid_argument "Address not found"),
                  snd (deallocate 4242 1 Mock.f1)))
    by (vm_compute; reflexivity).
  split; [now rewrite Ha|split; [|split; [now rewrite Hd|]]].
  - exact (proj1 (failure_leaves_provider_binding Mock.T8 Mock.f_refusing _
                    1 nullptr nullptr _ (or_introl Ha))).
  - exact (proj1 (failure_leaves_provider_binding Mock.T8 Mock.f1 _
                    1 nullptr 4242 _ (or_intror Hd))).
Defined.

Lemma max_size_largest_count_witness :
  0 < sizeof Mock.T8
  /\ max_size (Mock.bound Mock.T8) = 2305843009213693951
  /\ 2305843009213693951 * sizeof Mock.T8 <= 2 ^ 64 - 1
  /\ ~ (2305843009213693952 * sizeof Mock.T8 <= 2 ^ 64 - 1).
Proof.
  assert (Hs : 0 < sizeof Mock.T8) by reflexivity.
  destruct (max_size_largest_count Mock.T8 (Mock.bound Mock.T8) Hs)
    as (Hval & Hiff & _).
  split; [exact Hs|split; [|split]].
  - rewrite Hval. vm_compute. reflexivity.
  - vm_compute. discriminate.
  - vm_compute. intros Hle. apply Hle. reflexivity.
Defined.

Lemma allocate_bytes_do_not_wrap_witness :
  (0 < sizeof Mock.T8 /\ 0 <= 100 <= max_size (self Mock.f0))
  /\ wrap (100 * sizeof Mock.T8) = 800
  /\ nth_error (trace (mach (snd (allocate 100 nullptr Mock.f0)))) 0
     = Some (ev_provider_allocate 1%positive 800).
Proof.
  assert (Hs : 0 < sizeof Mock.T8) by reflexivity.
  assert (Hn : 0 <= 100 <= max_size (self Mock.f0))
    by (vm_compute; split; discriminate).
  destruct (allocate_bytes_do_not_wrap Mock.T8 Mock.f0 1%positive 100 nullptr
              Hs Hn eq_refl) as (Hw & _ & Hev).
  split; [exact (conj Hs Hn)|split].
  - rewrite Hw. reflexivity.
  - exact Hev.
Defined.

(** *** The further theorems at concrete inputs *)

(** The concrete provider runs every batch member as one call per
    descriptor. *)
Lemma mock_batches_are_sequential (op : batch_op) (a : allocation_id) :
  sequential_batch op a.
Proof.
  assert (Hb : forall f : map_t -> Mock.arena -> map_t * bool * Mock.arena,
            (forall w, Mock.batch f [] w = (([], 0), w))
            /\ (forall m rest w,
                  Mock.batch f (m :: rest) w
                  = let (r1, w1) := Mock.batch f [m] w in
                    let (r2, w2) := Mock.batch f rest w1 in
                    ((hd m (fst r1) :: fst r2, snd r1 + snd r2), w2))
            /\ (forall m w, 0 <= snd (fst (Mock.batch f [m] w)) <= 1)).
  { intros f. split; [reflexivity|split].
    - intros m rest w. cbn [Mock.batch].
      destruct (f m w) as [[m' ok] w'].
      destruct (Mock.batch f rest w') as [[rest' k] w'']. cbn.
      destruct ok; do 2 f_equal; lia.
    - intros m w. cbn [Mock.batch].
      destruct (f m w) as [[m' ok] w']. cbn. destruct ok; lia. }
  destruct op; apply Hb.
Qed.

Lemma range_matches_batch_on_sequential_provider_witness :
  let c := [map_t_range 0 100; map_t_range 700 200; map_t_range 100 50] in
  Z.of_nat (List.length c) <= SIZE_MAX
  /\ fst (allocation.range_loop op_map 1%positive c 0 Mock.s_reserved)
     = fst (allocation.map_vector 1%positive c Mock.s_reserved)
  /\ snd (fst (allocation.map_container 1%positive c Mock.s_reserved)) = 2.
Proof.
  cbv zeta.
  assert (Hlen : Z.of_nat (List.length [map_t_range 0 100; map_t_range 700 200;
                                        map_t_range 100 50]) <= SIZE_MAX)
    by (vm_compute; discriminate).
  destruct (range_matches_batch_on_sequential_provider op_map 1%positive
              [map_t_range 0 100; map_t_range 700 200; map_t_range 100 50]
              Mock.s_reserved (mock_batches_are_sequential _ _) Hlen)
    as (Hsame & _ & _).
  split; [exact Hlen|split; [exact Hsame|]].
  vm_compute. reflexivity.
Defined.

Lemma single_descriptor_matches_one_element_range_witness :
  agrees_on (map_t_range 0 800) Mock.s_reserved
    (allocation.map_one 1%positive) (allocation.map_range 1%positive)
  /\ snd (fst (allocation.map_one 1%positive (map_t_range 0 800)
                 Mock.s_reserved)) = true
  /\ snd (fst (allocation.unmap_one 1%positive (map_t_range 0 800)
                 Mock.s_reserved)) = false.
Proof.
  assert (Hcnt : forall op,
            is_size_t
              (snd (fst (allocation.dispatch op 1%positive [map_t_range 0 800]
                           (world Mock.s_reserved))))).
  { intros op. destruct op; vm_compute; split; discriminate. }
  split.
  - exact (proj1 (single_descriptor_matches_one_element_range 1%positive
                    (map_t_range 0 800) Mock.s_reserved Hcnt)).
  - vm_compute. split; reflexivity.
Defined.


Lemma equal_allocators_interchangeable_witness :
  operator_eq (Mock.bound Mock.T8) (Mock.bound Mock.T1) = true
  /\ fst (deallocate 65536 100 (mk_frame (Mock.bound Mock.T8) (mach Mock.f1)))
     = fst (deallocate 65536 800 (mk_frame (Mock.bound Mock.T1) (mach Mock.f1)))
  /\ fst (deallocate 65536 800 (mk_frame (Mock.bound Mock.T1) (mach Mock.f1)))
     = Returns tt.
Proof.
  assert (Heq : operator_eq (Mock.bound Mock.T8) (Mock.bound Mock.T1) = true)
    by reflexivity.
  split; [exact Heq|split].
  - exact (proj1 (proj1 (equal_allocators_interchangeable Mock.T8 Mock.T1
                           (Mock.bound Mock.T8) (Mock.bound Mock.T1)
                           (mach Mock.f1) 65536 100 800 0 nullptr nullptr
                           Heq))).
  - vm_compute. reflexivity.
Defined.

Lemma max_size_bounds_witness :
  0 < sizeof Mock.T8
  /\ is_size_t (max_size (Mock.bound Mock.T8))
  /\ max_size (Mock.bound Mock.T1) = SIZE_MAX
  /\ max_size (Mock.bound Mock.T8) <= max_size (Mock.bound Mock.T1).
Proof.
  assert (Hs8 : 0 < sizeof Mock.T8) by reflexivity.
  assert (Hs1 : 0 < sizeof Mock.T1) by reflexivity.
  destruct (max_size_bounds Mock.T8 (Mock.bound Mock.T8) Hs8)
    as (Hrange & _ & _ & _).
  destruct (max_size_bounds Mock.T1 (Mock.bound Mock.T1) Hs1)
    as (_ & _ & Hone & Hanti).
  split; [exact Hs8|split; [exact Hrange|split]].
  - exact (Hone eq_refl).
  - apply (Hanti Mock.T8 (Mock.bound Mock.T8)). vm_compute. discriminate.
Defined.
